(** * LZW compression (hakmad/lzw, [lzw.py]): a shallow embedding and its properties

    The development follows the source file top to bottom:
    - Python values used by the program (exceptions, [str], [dict], [struct]);
    - [compress] and [uncompress], each as a loop over a record of its local
      variables;
    - the binary layout written by [compress_to_file] and read back by
      [uncompress_from_file];
    - the properties.

    The [verbose] flag only selects calls to [print]; what is printed is not
    modelled, and the flag is dropped from every signature. *)

From Stdlib Require Import ZArith List Lia Bool.
From Stdlib.Strings Require Import Byte.
Import ListNotations.
Open Scope Z_scope.

(** ** Exceptions and results *)

Inductive exn : Set :=
| ValueError     (* max() of an empty dict; the decoder's explicit raise *)
| KeyError       (* d[k] with k not a key of d *)
| IndexError     (* [].pop(0); s[0] on an empty s *)
| TypeError      (* ord() of a string whose length is not 1 *)
| StructError    (* struct.pack out of range, struct.unpack of a short buffer *)
| UnicodeEncodeError. (* writing text that the file's encoding cannot encode *)

Inductive result (A : Type) : Type :=
| Ok (a : A)
| Raise (e : exn).
Arguments Ok {A} a.
Arguments Raise {A} e.

Definition bind {A B} (c : result A) (k : A -> result B) : result B :=
  match c with
  | Ok a => k a
  | Raise e => Raise e
  end.

Notation "x <- c ;; k" := (bind c (fun x => k))
  (at level 61, c at next level, right associativity).

Definition is_ok {A} (c : result A) : bool :=
  match c with Ok _ => true | Raise _ => false end.

(** [for x in xs: body] over a record of locals; an exception leaves the loop. *)
Fixpoint for_each {A S} (body : A -> S -> result S) (xs : list A) (s : S)
  : result S :=
  match xs with
  | [] => Ok s
  | x :: xs' => s' <- body x s ;; for_each body xs' s'
  end.

(** ** Strings

    A Python [str] is a sequence of code points; a character is a [str] of
    length one.  Iterating over a string yields its code points [c], and the
    one-character string is [[c]]. *)

Abbreviation str := (list Z).

(** [s[0]] *)
Definition str_first (s : str) : result Z :=
  match s with
  | [] => Raise IndexError
  | c :: _ => Ok c
  end.

(** Truth value of a string: [if prefix:] *)
Definition str_truthy (s : str) : bool :=
  match s with [] => false | _ :: _ => true end.

(** ** Keys of a dict *)

Class EqKey (K : Type) := key_eqb : K -> K -> bool.

Fixpoint str_eqb (a b : str) : bool :=
  match a, b with
  | [], [] => true
  | x :: a', y :: b' => (x =? y) && str_eqb a' b'
  | _, _ => false
  end.

#[export] Instance EqKey_Z : EqKey Z := Z.eqb.
#[export] Instance EqKey_str : EqKey str := str_eqb.

(** ** Dicts

    A Python dict keeps its keys in insertion order, each key once: an
    association list in that order.  Assigning to a key that is present
    replaces the value where the key already stands; assigning to a new key
    appends. *)

Definition dict (K V : Type) := list (K * V).

Section Dict.
Context {K V : Type} `{EqKey K}.

Fixpoint dict_get (k : K) (d : dict K V) : option V :=
  match d with
  | [] => None
  | (k', v) :: d' => if key_eqb k k' then Some v else dict_get k d'
  end.

(** [k in d] *)
Definition dict_contains (k : K) (d : dict K V) : bool :=
  match dict_get k d with Some _ => true | None => false end.

(** [d[k]] *)
Definition dict_getitem (k : K) (d : dict K V) : result V :=
  match dict_get k d with Some v => Ok v | None => Raise KeyError end.

(** [d[k] = v] *)
Fixpoint dict_setitem (k : K) (v : V) (d : dict K V) : dict K V :=
  match d with
  | [] => [(k, v)]
  | (k', v') :: d' =>
      if key_eqb k k' then (k', v) :: d' else (k', v') :: dict_setitem k v d'
  end.

Definition dict_keys (d : dict K V) : list K := map fst d.
Definition dict_values (d : dict K V) : list V := map snd d.

(** No key twice: what every Python dict satisfies. *)
Fixpoint keys_unique (d : dict K V) : bool :=
  match d with
  | [] => true
  | (k, _) :: d' => negb (dict_contains k d') && keys_unique d'
  end.

End Dict.

(** [max(d, key=d.get)]: the first key whose value is the largest; ValueError
    on an empty dict. *)
Fixpoint max_from {K} (best : K * Z) (d : dict K Z) : K * Z :=
  match d with
  | [] => best
  | (k, v) :: d' => if v >? snd best then max_from (k, v) d' else max_from best d'
  end.

Definition dict_max_key {K} (d : dict K Z) : result K :=
  match d with
  | [] => Raise ValueError
  | kv :: d' => Ok (fst (max_from kv d'))
  end.

(** [{value: key for key, value in d.items()}] *)
Definition dict_invert {K V} `{EqKey V} (d : dict K V) : dict V K :=
  fold_left (fun acc kv => dict_setitem (snd kv) (fst kv) acc) d [].

(** ** compress (lzw.py, lines 15-131) *)

Definition max_table_size : Z := 2 ^ 16.

(** [unique_chars = list(set(uncompressed_data))]: Python leaves the order of
    a set unspecified, so the listing is an argument of the model; it holds
    every character of the input once. *)
Fixpoint mem_Z (c : Z) (l : list Z) : bool :=
  match l with
  | [] => false
  | x :: l' => (c =? x) || mem_Z c l'
  end.

Fixpoint nodup_Z (l : list Z) : bool :=
  match l with
  | [] => true
  | x :: l' => negb (mem_Z x l') && nodup_Z l'
  end.

Definition list_of_set (unique_chars : list Z) (uncompressed_data : str) : bool :=
  nodup_Z unique_chars
  && forallb (fun c => mem_Z c uncompressed_data) unique_chars
  && forallb (fun c => mem_Z c unique_chars) uncompressed_data.

(** [{unique_chars[i]: i for i in range(len(unique_chars))}] *)
Definition build_initial_table (unique_chars : list Z) : dict str Z :=
  fold_left
    (fun d i =>
       match nth_error unique_chars i with
       | Some c => dict_setitem [c] (Z.of_nat i) d
       | None => d
       end)
    (seq 0 (length unique_chars)) [].

(** [table[max(table, key=table.get)]] *)
Definition max_code (table : dict str Z) : result Z :=
  k <- dict_max_key table ;;
  dict_getitem k table.

Module Compress.

(** The local variables of [compress].  [initial_table] and [table] are two
    objects: [table] starts as [initial_table.copy()]. *)
Record locals := {
  compressed_data : list Z;
  initial_table : dict str Z;
  table : dict str Z;
  table_size : Z;
  prefix : str
}.

(** Body of [for char in uncompressed_data] (lines 76-104). *)
Definition loop_body (char : Z) (l : locals) : result locals :=
  if dict_contains (prefix l ++ [char]) (table l) then
    Ok {| compressed_data := compressed_data l;
          initial_table := initial_table l;
          table := table l;
          table_size := table_size l;
          prefix := prefix l ++ [char] |}
  else
    code <- dict_getitem (prefix l) (table l) ;;
    let compressed_data' := compressed_data l ++ [code] in
    if negb (table_size l >? max_table_size - 1) then
      Ok {| compressed_data := compressed_data';
            initial_table := initial_table l;
            table := dict_setitem (prefix l ++ [char]) (table_size l) (table l);
            table_size := table_size l + 1;
            prefix := [char] |}
    else
      Ok {| compressed_data := compressed_data';
            initial_table := initial_table l;
            table := table l;
            table_size := table_size l;
            prefix := [char] |}.

(** Lines 106-111: [if prefix: compressed_data.append(table[prefix])]. *)
Definition flush (l : locals) : result locals :=
  if str_truthy (prefix l) then
    code <- dict_getitem (prefix l) (table l) ;;
    Ok {| compressed_data := compressed_data l ++ [code];
          initial_table := initial_table l;
          table := table l;
          table_size := table_size l;
          prefix := prefix l |}
  else Ok l.

(** Lines 38-75: the locals on entry to the loop. *)
Definition enter (unique_chars : list Z) : result locals :=
  let initial_table := build_initial_table unique_chars in
  let table := initial_table in
  m <- max_code table ;;
  Ok {| compressed_data := [];
        initial_table := initial_table;
        table := table;
        table_size := m + 1;
        prefix := [] |}.

(** The locals when [compress] reaches its [return]. *)
Definition run (unique_chars : list Z) (uncompressed_data : str)
  : result locals :=
  l0 <- enter unique_chars ;;
  l1 <- for_each loop_body uncompressed_data l0 ;;
  flush l1.

End Compress.

Definition compress (unique_chars : list Z) (uncompressed_data : str)
  : result (list Z * dict str Z) :=
  l <- Compress.run unique_chars uncompressed_data ;;
  Ok (Compress.compressed_data l, Compress.initial_table l).

(** ** uncompress (lzw.py, lines 134-234)

    [uncompress] receives two objects of its caller.  It rebinds its name
    [table] to a new dict (line 168) and never writes to the caller's dict,
    but [compressed_data.pop(0)] (line 181) removes an element from the
    caller's list.  The caller's objects are the state of a small monad; an
    exception leaves them as they are at that point. *)

Record caller_objects := {
  compressed_data_obj : list Z;
  table_obj : dict str Z
}.

Definition M (A : Type) : Type := caller_objects -> result A * caller_objects.

Definition ret {A} (a : A) : M A := fun h => (Ok a, h).

Definition mbind {A B} (c : M A) (k : A -> M B) : M B :=
  fun h =>
    match c h with
    | (Ok a, h') => k a h'
    | (Raise e, h') => (Raise e, h')
    end.

Definition lift {A} (c : result A) : M A := fun h => (c, h).

Notation "x <~ c ;; k" := (mbind c (fun x => k))
  (at level 61, c at next level, right associativity).

(** Reading the arguments. *)
Definition read_table : M (dict str Z) := fun h => (Ok (table_obj h), h).
Definition read_compressed_data : M (list Z) :=
  fun h => (Ok (compressed_data_obj h), h).

(** [compressed_data.pop(0)] *)
Definition pop0 : M Z :=
  fun h =>
    match compressed_data_obj h with
    | [] => (Raise IndexError, h)
    | c :: rest =>
        (Ok c, {| compressed_data_obj := rest; table_obj := table_obj h |})
    end.

Module Uncompress.

(** The local variables of [uncompress]; [table] is the inverted dict. *)
Record locals := {
  uncompressed_data : str;
  table : dict Z str;
  table_size : Z;
  previous : str
}.

(** Body of [for current in compressed_data] (lines 185-219). *)
Definition loop_body (current : Z) (l : locals) : result locals :=
  output <-
    (if dict_contains current (table l) then dict_getitem current (table l)
     else if current =? table_size l then
       c <- str_first (previous l) ;; Ok (previous l ++ [c])
     else Raise ValueError) ;;
  c <- str_first output ;;
  Ok {| uncompressed_data := uncompressed_data l ++ output;
        table := dict_setitem (table_size l) (previous l ++ [c]) (table l);
        table_size := table_size l + 1;
        previous := output |}.

(** The locals when [uncompress] reaches its [return]. *)
Definition run : M locals :=
  arg_table <~ read_table ;;
  m <~ lift (max_code arg_table) ;;
  let table_size := m + 1 in
  let table := dict_invert arg_table in
  first <~ pop0 ;;
  current <~ lift (dict_getitem first table) ;;
  rest <~ read_compressed_data ;;
  lift (for_each loop_body rest
          {| uncompressed_data := current;
             table := table;
             table_size := table_size;
             previous := current |}).

End Uncompress.

(** [uncompress(compressed_data, table)]: what the call returns or raises, and
    the caller's two objects after the call. *)
Definition uncompress (compressed_data : list Z) (table : dict str Z)
  : result str * caller_objects :=
  (l <~ Uncompress.run ;; ret (Uncompress.uncompressed_data l))
    {| compressed_data_obj := compressed_data; table_obj := table |}.

(** Compressing and then uncompressing what [compress] returned. *)
Definition roundtrip (unique_chars : list Z) (s : str) : result str :=
  p <- compress unique_chars s ;;
  fst (uncompress (fst p) (snd p)).

(** ** The binary layout (lzw.py, lines 269-298 and 325-359) *)

Definition byte_of_Z (z : Z) : byte :=
  match Byte.of_N (Z.to_N z) with
  | Some b => b
  | None => x00
  end.

Definition Z_of_byte (b : byte) : Z := Z.of_N (Byte.to_N b).

(** [struct.pack("<B", x)] *)
Definition pack_B (x : Z) : result (list byte) :=
  if (0 <=? x) && (x <=? 255) then Ok [byte_of_Z x] else Raise StructError.

(** [struct.pack("<H", x)]: two bytes, the low one first. *)
Definition pack_H (x : Z) : result (list byte) :=
  if (0 <=? x) && (x <=? 65535)
  then Ok [byte_of_Z (x mod 256); byte_of_Z (x / 256)]
  else Raise StructError.

(** [struct.unpack("<B", data)[0]] *)
Definition unpack_B (data : list byte) : result Z :=
  match data with
  | [b] => Ok (Z_of_byte b)
  | _ => Raise StructError
  end.

(** [struct.unpack("<H", data)[0]] *)
Definition unpack_H (data : list byte) : result Z :=
  match data with
  | [b0; b1] => Ok (Z_of_byte b0 + 256 * Z_of_byte b1)
  | _ => Raise StructError
  end.

(** [ord(char)] *)
Definition ord (char : str) : result Z :=
  match char with
  | [c] => Ok c
  | _ => Raise TypeError
  end.

(** [chr(i)] *)
Definition chr (i : Z) : result str :=
  if (0 <=? i) && (i <? 1114112) then Ok [i] else Raise ValueError.

(** Lines 289-291: one entry of the table, appended to the file. *)
Definition write_entry (item : str * Z) (file : list byte)
  : result (list byte) :=
  cp <- ord (fst item) ;;
  b1 <- pack_H cp ;;
  b2 <- pack_B (snd item) ;;
  Ok ((file ++ b1) ++ b2).

(** Lines 297-298: one code, appended to the file. *)
Definition write_code (data : Z) (file : list byte) : result (list byte) :=
  b <- pack_H data ;;
  Ok (file ++ b).

(** Lines 269-298 of [compress_to_file]: the bytes written to the output
    file, each [file.write] appending to what was written before. *)
Definition write_lzw (compressed_data : list Z) (table : dict str Z)
  : result (list byte) :=
  table_size <- max_code table ;;
  file0 <- pack_B table_size ;;
  file1 <- for_each write_entry table file0 ;;
  for_each write_code compressed_data file1.

(** [compress_to_file], from the text read from the input file to the bytes of
    the output file. *)
Definition compress_to_file (unique_chars : list Z) (data : str)
  : result (list byte) :=
  p <- compress unique_chars data ;;
  write_lzw (fst p) (snd p).

(** [file.read(n)]: at most [n] bytes, and the rest of the file. *)
Definition file_read (n : nat) (file : list byte) : list byte * list byte :=
  (firstn n file, skipn n file).

(** Lines 343-347: [for i in range(table_size + 1)], [n] iterations. *)
Fixpoint read_entries (n : nat) (table : dict str Z) (file : list byte)
  : result (dict str Z * list byte) :=
  match n with
  | O => Ok (table, file)
  | S n' =>
      let (d1, file1) := file_read 2 file in
      cp <- unpack_H d1 ;;
      char <- chr cp ;;
      let (d2, file2) := file_read 1 file1 in
      code <- unpack_B d2 ;;
      read_entries n' (dict_setitem char code table) file2
  end.

(** Lines 353-359: [while True], two bytes at a time until [file.read(2)]
    returns nothing; a single left-over byte does not unpack. *)
Fixpoint read_codes (file : list byte) (compressed_data : list Z)
  : result (list Z) :=
  match file with
  | [] => Ok compressed_data
  | [_] => Raise StructError
  | b0 :: b1 :: file' =>
      data <- unpack_H [b0; b1] ;;
      read_codes file' (compressed_data ++ [data])
  end.

(** Lines 325-359 of [uncompress_from_file]: the two values handed to
    [uncompress]. *)
Definition read_lzw (file : list byte) : result (list Z * dict str Z) :=
  let (d, file0) := file_read 1 file in
  table_size <- unpack_B d ;;
  r <- read_entries (Z.to_nat (table_size + 1)) [] file0 ;;
  compressed_data <- read_codes (snd r) [] ;;
  Ok (compressed_data, fst r).

(** Lines 367-375: [open(out_file, "w")] and [file.write(uncompressed_data)].
    A text file encodes what is written to it with the encoding of the
    platform and translates newlines as the platform does, and raises
    UnicodeEncodeError on text that encoding cannot encode; which encoding
    that is the program does not say, so the writer is an argument of the
    model: from the text to the bytes that reach the output file. *)
Definition text_writer : Type := str -> result (list byte).

(** [uncompress_from_file], from the bytes of the input file to the bytes
    written to the output file. *)
Definition uncompress_from_file (write_text : text_writer) (file : list byte)
  : result (list byte) :=
  p <- read_lzw file ;;
  uncompressed_data <- fst (uncompress (fst p) (snd p)) ;;
  write_text uncompressed_data.

(** One writer: UTF-8 without newline translation, the text mode of a POSIX
    platform.  A surrogate code point (U+D800 to U+DFFF) has no UTF-8 form. *)
Definition utf8_char (c : Z) : result (list byte) :=
  if (0 <=? c) && (c <? 128) then Ok [byte_of_Z c]
  else if (128 <=? c) && (c <? 2048) then
    Ok [byte_of_Z (192 + c / 64); byte_of_Z (128 + c mod 64)]
  else if (2048 <=? c) && (c <? 65536) then
    if (55296 <=? c) && (c <=? 57343) then Raise UnicodeEncodeError
    else Ok [byte_of_Z (224 + c / 4096);
             byte_of_Z (128 + (c / 64) mod 64);
             byte_of_Z (128 + c mod 64)]
  else if (65536 <=? c) && (c <? 1114112) then
    Ok [byte_of_Z (240 + c / 262144);
        byte_of_Z (128 + (c / 4096) mod 64);
        byte_of_Z (128 + (c / 64) mod 64);
        byte_of_Z (128 + c mod 64)]
  else Raise UnicodeEncodeError.

Definition write_text_utf8 : text_writer :=
  fun text => for_each (fun c out => b <- utf8_char c ;; Ok (out ++ b)) text [].

(** The text "TOBEORNOTTOBEORTOBEORNOT", as code points. *)
Definition TOBE : str :=
  [84;79;66;69;79;82;78;79;84;84;79;66;69;79;82;84;79;66;69;79;82;78;79;84].

(** ** File names (lzw.py, lines 251 and 319) *)

(** The string ".lzw". *)
Definition lzw_ext : str := [46; 108; 122; 119].

(** [out_file = in_file + ".lzw"] in [compress_to_file]. *)
Definition compress_out_file (in_file : str) : str := in_file ++ lzw_ext.

(** [s.replace(".lzw", "")]: every occurrence of ".lzw", found from left to
    right without overlap, is dropped. *)
Fixpoint remove_lzw (s : str) : str :=
  match s with
  | c0 :: ((c1 :: c2 :: c3 :: rest) as s') =>
      if (c0 =? 46) && (c1 =? 108) && (c2 =? 122) && (c3 =? 119)
      then remove_lzw rest
      else c0 :: remove_lzw s'
  | _ => s
  end.

(** [out_file = in_file.replace(".lzw", "")] in [uncompress_from_file]. *)
Definition uncompress_out_file (in_file : str) : str := remove_lzw in_file.

(** ** Definitions used in the statements and invariants *)

(** The equality test of a key type decides equality. *)
Class EqKeyOk (K : Type) `{EqKey K} :=
  key_eqb_eq : forall x y : K, key_eqb x y = true <-> x = y.

(** The dict comprehension of line 57, unfolded: the i-th listed character
    gets code i. *)
Fixpoint enum_from (i : nat) (u : list Z) : dict str Z :=
  match u with
  | [] => []
  | c :: u' => ([c], Z.of_nat i) :: enum_from (S i) u'
  end.

(** What holds of the locals of [compress] before and after every iteration,
    for an input whose characters are listed in [u]. *)
Record enc_inv (u : list Z) (l : Compress.locals) : Prop := {
  inv_prefix :
    Compress.prefix l = []
    \/ dict_contains (Compress.prefix l) (Compress.table l) = true;
  inv_singles :
    forall c, In c u -> dict_contains [c] (Compress.table l) = true;
  inv_table_codes :
    forall w k, dict_get w (Compress.table l) = Some k ->
                0 <= k < Compress.table_size l;
  inv_emitted :
    forall k, In k (Compress.compressed_data l) ->
              0 <= k < Compress.table_size l;
  inv_initial : Compress.initial_table l = enum_from 0 u;
  inv_size :
    Compress.table_size l <= Z.max (Z.of_nat (length u)) max_table_size
}.

(** The caller's two objects, as passed to [uncompress]. *)
Definition objects (compressed_data : list Z) (table : dict str Z)
  : caller_objects :=
  {| compressed_data_obj := compressed_data; table_obj := table |}.

(** The locals of [uncompress] on entry to its loop (lines 165-183), for a
    table whose largest code is [m] and a first code that decodes to
    [current]. *)
Definition first_locals (m : Z) (table : dict str Z) (current : str)
  : Uncompress.locals :=
  {| Uncompress.uncompressed_data := current;
     Uncompress.table := dict_invert table;
     Uncompress.table_size := m + 1;
     Uncompress.previous := current |}.

(** The strings of the decoder's table and [previous] are never empty, so
    [previous[0]] and [output[0]] always find a character. *)
Definition dec_nonempty (l : Uncompress.locals) : Prop :=
  Uncompress.previous l <> []
  /\ forall k w, dict_get k (Uncompress.table l) = Some w -> w <> [].

(** An initial table: a dict, so no key twice, whose keys are characters. *)
Definition symbol_table (table : dict str Z) : bool :=
  keys_unique table
  && forallb (fun item => Nat.eqb (length (fst item)) 1) table.

(** The keys of the working table when the loop of [uncompress] reaches the
    code at position [j] of the remaining list: the codes of the initial
    table, whose largest is [m], and the [j] entries added since. *)
Definition known_code (table : dict str Z) (m : Z) (j : nat) (c : Z) : Prop :=
  In c (dict_values table) \/ m + 1 <= c < m + 1 + Z.of_nat j.

(** The counter [table_size] at that point. *)
Definition next_code (m : Z) (j : nat) : Z := m + 1 + Z.of_nat j.

(** The decoder rebuilds the encoder's table one entry late.  [sim el dl h]
    relates the locals of [compress] at a point where it holds a prefix that
    starts with [h], and the locals of [uncompress] after it has consumed
    every code emitted so far: each entry of the encoder's table is in the
    decoder's table, except possibly the last one added, which is
    [previous + h] at the decoder's counter.  The decoder's counter is never
    behind by more than one, and it runs ahead once the encoder has stopped
    adding. *)
Record sim (el : Compress.locals) (dl : Uncompress.locals) (h : Z) : Prop := {
  sim_head : exists p', Compress.prefix el = h :: p';
  sim_prev : Uncompress.previous dl <> [];
  sim_known :
    dict_contains (Compress.prefix el) (Compress.table el) = true;
  sim_tables :
    forall w k, dict_get w (Compress.table el) = Some k ->
      dict_get k (Uncompress.table dl) = Some w
      \/ (k = Uncompress.table_size dl
          /\ w = Uncompress.previous dl ++ [h]);
  sim_keys :
    forall k, dict_contains k (Uncompress.table dl) = true ->
              k < Uncompress.table_size dl;
  sim_sizes :
    Compress.table_size el <= Uncompress.table_size dl + 1
    /\ (Compress.table_size el <= max_table_size - 1 ->
        Uncompress.table_size dl + 1 = Compress.table_size el)
}.

(** Writing and then reading, as [compress_to_file] and
    [uncompress_from_file] do around the file. *)
Definition binary_roundtrip (compressed_data : list Z) (table : dict str Z)
  : result (list Z * dict str Z) :=
  file <- write_lzw compressed_data table ;;
  read_lzw file.

(** The codes of a table are exactly 0, ..., n-1 for its n entries. *)
Definition dense_codes (table : dict str Z) : bool :=
  forallb (fun v => (0 <=? v) && (v <? Z.of_nat (length table)))
    (dict_values table)
  && forallb (fun i => mem_Z (Z.of_nat i) (dict_values table))
       (seq 0 (length table)).

(** Every value fits the two-byte field. *)
Definition two_byte_values (l : list Z) : bool :=
  forallb (fun x => (0 <=? x) && (x <=? 65535)) l.

(** Every key is a character whose code point fits the two-byte field. *)
Definition two_byte_symbols (table : dict str Z) : bool :=
  forallb (fun item => match fst item with
                       | [c] => (0 <=? c) && (c <=? 65535)
                       | _ => false
                       end) table.

(** The three bytes of an entry and the two bytes of a code. *)
Definition entry_bytes (item : str * Z) : list byte :=
  match fst item with
  | [c] => [byte_of_Z (c mod 256); byte_of_Z (c / 256); byte_of_Z (snd item)]
  | _ => []
  end.

Definition code_bytes (x : Z) : list byte :=
  [byte_of_Z (x mod 256); byte_of_Z (x / 256)].

(** The shape of the working table of [compress]: the counter is the number
    of entries, the codes are 0, 1, ... in insertion order, no key stands
    twice, and the entries of the initial table come first. *)
Record enc_shape (u : list Z) (l : Compress.locals) : Prop := {
  shape_size : Compress.table_size l = Z.of_nat (length (Compress.table l));
  shape_values :
    dict_values (Compress.table l)
    = map Z.of_nat (seq 0 (length (Compress.table l)));
  shape_keys : NoDup (dict_keys (Compress.table l));
  shape_grows : exists added, Compress.table l = enum_from 0 u ++ added
}.

(** One code is still owed for a prefix that is not empty. *)
Definition pending (l : Compress.locals) : nat :=
  if str_truthy (Compress.prefix l) then 1 else 0.

(** Every character the decoder holds, in [previous], in the strings of its
    table and in its output so far, satisfies [A]. *)
Definition dec_chars (A : Z -> Prop) (l : Uncompress.locals) : Prop :=
  (forall c, In c (Uncompress.previous l) -> A c)
  /\ (forall k w, dict_get k (Uncompress.table l) = Some w ->
                  forall c, In c w -> A c)
  /\ (forall c, In c (Uncompress.uncompressed_data l) -> A c).

(** The string starts with ".lzw". *)
Definition starts_with_lzw (s : str) : bool :=
  match s with
  | c0 :: c1 :: c2 :: c3 :: _ =>
      (c0 =? 46) && (c1 =? 108) && (c2 =? 122) && (c3 =? 119)
  | _ => false
  end.

(** ".lzw" occurs somewhere in the string. *)
Fixpoint occurs_lzw (s : str) : bool :=
  match s with
  | [] => false
  | _ :: s' => starts_with_lzw s || occurs_lzw s'
  end.

(** * Properties *)

(** ** Results *)

Lemma bind_Ok_inv {A B} (c : result A) (k : A -> result B) (b : B) :
  bind c k = Ok b -> exists a, c = Ok a /\ k a = Ok b.
Proof. destruct c as [a|e]; simpl; [eauto | discriminate]. Qed.

Lemma is_ok_true {A} (c : result A) : is_ok c = true <-> exists a, c = Ok a.
Proof.
  destruct c as [a|e]; simpl; split; eauto; try discriminate.
  intros [a H]; discriminate.
Qed.

Lemma for_each_app {A S} (body : A -> S -> result S) (xs ys : list A) (s : S) :
  for_each body (xs ++ ys) s = (s' <- for_each body xs s ;; for_each body ys s').
Proof.
  revert s; induction xs as [|x xs IH]; intros s; simpl; [reflexivity|].
  destruct (body x s); simpl; auto.
Qed.

(** ** Keys with a correct equality test *)

Lemma str_eqb_eq : forall a b, str_eqb a b = true <-> a = b.
Proof.
  induction a as [|x a IH]; destruct b as [|y b]; simpl;
    try (split; [discriminate | discriminate]); try tauto.
  rewrite andb_true_iff, Z.eqb_eq, IH. split.
  - intros [-> ->]; reflexivity.
  - intros E; inversion E; auto.
Qed.

#[export] Instance EqKeyOk_Z : EqKeyOk Z := Z.eqb_eq.
#[export] Instance EqKeyOk_str : EqKeyOk str := str_eqb_eq.

Section DictFacts.
Context {K V : Type} `{EqKeyOk K}.

Lemma key_eqb_refl (k : K) : key_eqb k k = true.
Proof. apply key_eqb_eq; reflexivity. Qed.

Lemma key_eqb_neq (k k' : K) : k <> k' -> key_eqb k k' = false.
Proof.
  intros N. destruct (key_eqb k k') eqn:E; [|reflexivity].
  apply key_eqb_eq in E. contradiction.
Qed.

Lemma key_eqb_case (k k' : K) :
  (k = k' /\ key_eqb k k' = true) \/ (k <> k' /\ key_eqb k k' = false).
Proof.
  destruct (key_eqb k k') eqn:E.
  - left. split; [apply key_eqb_eq; exact E | reflexivity].
  - right. split; [|reflexivity]. intros ->. rewrite key_eqb_refl in E.
    discriminate.
Qed.

Lemma dict_get_setitem_same (k : K) (v : V) (d : dict K V) :
  dict_get k (dict_setitem k v d) = Some v.
Proof.
  induction d as [|[k' v'] d IH]; simpl.
  - rewrite key_eqb_refl; reflexivity.
  - destruct (key_eqb_case k k') as [[-> E]|[N E]]; rewrite E; simpl; rewrite E; auto.
Qed.

Lemma dict_get_setitem_other (k k' : K) (v : V) (d : dict K V) :
  k <> k' -> dict_get k' (dict_setitem k v d) = dict_get k' d.
Proof.
  intros N. induction d as [|[k0 v0] d IH]; simpl.
  - rewrite key_eqb_neq; auto.
  - destruct (key_eqb_case k k0) as [[-> E]|[N0 E]]; rewrite E; simpl.
    + rewrite (key_eqb_neq k' k0); auto.
    + destruct (key_eqb k' k0); auto.
Qed.

Lemma dict_get_setitem (k k' : K) (v : V) (d : dict K V) :
  dict_get k' (dict_setitem k v d) = if key_eqb k k' then Some v else dict_get k' d.
Proof.
  destruct (key_eqb_case k k') as [[-> E]|[N E]]; rewrite E.
  - apply dict_get_setitem_same.
  - apply dict_get_setitem_other; exact N.
Qed.

Lemma dict_contains_true (k : K) (d : dict K V) :
  dict_contains k d = true <-> exists v, dict_get k d = Some v.
Proof.
  unfold dict_contains. destruct (dict_get k d) as [v|]; split; eauto.
  - discriminate.
  - intros [v E]; discriminate.
Qed.

Lemma dict_contains_false (k : K) (d : dict K V) :
  dict_contains k d = false <-> dict_get k d = None.
Proof.
  unfold dict_contains. destruct (dict_get k d); split; congruence.
Qed.

Lemma dict_contains_setitem (k k' : K) (v : V) (d : dict K V) :
  dict_contains k' (dict_setitem k v d) = key_eqb k k' || dict_contains k' d.
Proof.
  unfold dict_contains. rewrite dict_get_setitem.
  destruct (key_eqb k k'); reflexivity.
Qed.

Lemma dict_get_In (k : K) (v : V) (d : dict K V) :
  dict_get k d = Some v -> In (k, v) d.
Proof.
  induction d as [|[k' v'] d IH]; simpl; [discriminate|].
  destruct (key_eqb_case k k') as [[-> E]|[N E]]; rewrite E.
  - intros [= ->]; auto.
  - auto.
Qed.

Lemma dict_get_None_keys (k : K) (d : dict K V) :
  dict_get k d = None <-> ~ In k (dict_keys d).
Proof.
  induction d as [|[k' v'] d IH]; simpl; [tauto|].
  destruct (key_eqb_case k k') as [[-> E]|[N E]]; rewrite E.
  - split; [discriminate | intros C; exfalso; apply C; auto].
  - rewrite IH. split; [intros C [E'|I]; [congruence | auto] | tauto].
Qed.

Lemma dict_contains_keys (k : K) (d : dict K V) :
  dict_contains k d = true <-> In k (dict_keys d).
Proof.
  unfold dict_contains.
  induction d as [|[k' v'] d IH]; simpl; [split; [discriminate | tauto]|].
  destruct (key_eqb_case k k') as [[-> E]|[N E]]; rewrite E.
  - split; auto.
  - rewrite IH. split; [auto | intros [C|I]; [congruence | exact I]].
Qed.

Lemma keys_unique_NoDup (d : dict K V) :
  keys_unique d = true <-> NoDup (dict_keys d).
Proof.
  induction d as [|[k v] d IH]; simpl.
  - split; [constructor | reflexivity].
  - rewrite andb_true_iff, negb_true_iff, dict_contains_false,
      dict_get_None_keys, IH.
    split; [intros [A B]; constructor; auto | intros N; inversion N; auto].
Qed.

Lemma In_dict_get (k : K) (v : V) (d : dict K V) :
  NoDup (dict_keys d) -> In (k, v) d -> dict_get k d = Some v.
Proof.
  induction d as [|[k' v'] d IH]; simpl; [tauto|].
  intros N [E|I]; inversion N; subst.
  - inversion E; subst. rewrite key_eqb_refl; reflexivity.
  - destruct (key_eqb_case k k') as [[-> E]|[N' E]]; rewrite E; auto.
    exfalso. apply H3. apply (in_map fst) in I. exact I.
Qed.

Lemma dict_setitem_fresh (k : K) (v : V) (d : dict K V) :
  dict_get k d = None -> dict_setitem k v d = d ++ [(k, v)].
Proof.
  induction d as [|[k' v'] d IH]; simpl; [reflexivity|].
  destruct (key_eqb k k'); [discriminate|].
  intros E; rewrite IH; auto.
Qed.

End DictFacts.

(** ** The largest code of a table *)

Lemma max_from_spec {K} (d : dict K Z) : forall best,
  (max_from best d = best \/ In (max_from best d) d)
  /\ snd best <= snd (max_from best d)
  /\ (forall kv, In kv d -> snd kv <= snd (max_from best d)).
Proof.
  induction d as [|[k v] d IH]; intros best; simpl.
  - repeat split; auto; try lia; intros kv [].
  - destruct (Z.gtb_spec v (snd best)) as [G|G].
    + destruct (IH (k, v)) as (A & B & C). simpl in B.
      repeat split.
      * destruct A as [A|A]; [rewrite A|]; auto.
      * lia.
      * intros kv [<-|I]; simpl; auto.
    + destruct (IH best) as (A & B & C).
      repeat split.
      * destruct A as [A|A]; auto.
      * exact B.
      * intros kv [<-|I]; simpl; [lia | auto].
Qed.

Lemma max_code_empty : max_code [] = Raise ValueError.
Proof. reflexivity. Qed.

Lemma max_code_spec (table : dict str Z) :
  table <> [] -> keys_unique table = true ->
  exists m, max_code table = Ok m
            /\ In m (dict_values table)
            /\ (forall v, In v (dict_values table) -> v <= m).
Proof.
  intros NE U. destruct table as [|kv d]; [congruence|].
  unfold max_code; simpl dict_max_key; simpl bind.
  destruct (max_from_spec d kv) as (A & B & C).
  set (r := max_from kv d) in *.
  assert (I : In r (kv :: d)) by (destruct A as [->|A]; simpl; auto).
  exists (snd r). split; [|split].
  - unfold dict_getitem. rewrite (In_dict_get (fst r) (snd r)); auto.
    + apply keys_unique_NoDup; exact U.
    + destruct r; exact I.
  - apply in_map; exact I.
  - intros v Iv. apply in_map_iff in Iv. destruct Iv as (kv' & <- & [<-|I']); auto.
Qed.

(** ** Inverting a table *)

Section Invert.
Context {K V : Type} `{EqKeyOk V}.

Let step := fun (acc : dict V K) (kv : K * V) => dict_setitem (snd kv) (fst kv) acc.

Lemma invert_fold_get (d : dict K V) : forall acc v k,
  dict_get v (fold_left step d acc) = Some k ->
  In (k, v) d \/ dict_get v acc = Some k.
Proof.
  induction d as [|[k0 v0] d IH]; intros acc v k; simpl; auto.
  intros E. apply IH in E. destruct E as [E|E]; auto.
  unfold step in E; simpl in E. rewrite dict_get_setitem in E.
  destruct (key_eqb_case v0 v) as [[-> Q]|[N Q]]; rewrite Q in E; auto.
  inversion E; subst; auto.
Qed.

Lemma invert_fold_contains (d : dict K V) : forall acc v,
  dict_contains v (fold_left step d acc) = true <->
  In v (dict_values d) \/ dict_contains v acc = true.
Proof.
  induction d as [|[k0 v0] d IH]; intros acc v; simpl; [tauto|].
  rewrite IH. unfold step; simpl. rewrite dict_contains_setitem, orb_true_iff.
  destruct (key_eqb_case v0 v) as [[-> Q]|[N Q]]; rewrite Q;
    intuition congruence.
Qed.

Lemma invert_fold_skip (d : dict K V) : forall acc v,
  ~ In v (dict_values d) ->
  dict_get v (fold_left step d acc) = dict_get v acc.
Proof.
  induction d as [|[k0 v0] d IH]; intros acc v N; simpl; auto.
  simpl in N. rewrite IH by tauto. unfold step; simpl.
  apply dict_get_setitem_other. tauto.
Qed.

Lemma invert_fold_In (d : dict K V) : forall acc v k,
  NoDup (dict_values d) -> In (k, v) d ->
  dict_get v (fold_left step d acc) = Some k.
Proof.
  induction d as [|[k0 v0] d IH]; intros acc v k ND I; simpl in *; [tauto|].
  inversion ND; subst. destruct I as [E|I].
  - inversion E; subst. rewrite invert_fold_skip by assumption.
    unfold step; simpl. apply dict_get_setitem_same.
  - apply IH; assumption.
Qed.

Lemma dict_invert_get (d : dict K V) (v : V) (k : K) :
  dict_get v (dict_invert d) = Some k -> In (k, v) d.
Proof.
  intros E. apply invert_fold_get in E. destruct E as [E|E]; [exact E|discriminate].
Qed.

Lemma dict_invert_contains (d : dict K V) (v : V) :
  dict_contains v (dict_invert d) = true <-> In v (dict_values d).
Proof.
  unfold dict_invert. fold step. rewrite invert_fold_contains.
  unfold dict_contains; simpl. intuition discriminate.
Qed.

Lemma dict_invert_In (d : dict K V) (v : V) (k : K) :
  NoDup (dict_values d) -> In (k, v) d -> dict_get v (dict_invert d) = Some k.
Proof. apply invert_fold_In. Qed.

End Invert.

(** ** The listing of the input's characters and the initial table *)

Lemma NoDup_map_inj {A B} (f : A -> B) (l : list A) :
  (forall a b, f a = f b -> a = b) -> NoDup l -> NoDup (map f l).
Proof.
  intros Inj N. induction N as [|a l NI N IH]; simpl; constructor; auto.
  intros I. apply in_map_iff in I. destruct I as (b & E & I).
  apply Inj in E. subst b. contradiction.
Qed.

Lemma mem_Z_In (c : Z) (l : list Z) : mem_Z c l = true <-> In c l.
Proof.
  induction l as [|x l IH]; simpl; [split; [discriminate | tauto]|].
  rewrite orb_true_iff, Z.eqb_eq, IH. intuition congruence.
Qed.

Lemma nodup_Z_NoDup (l : list Z) : nodup_Z l = true <-> NoDup l.
Proof.
  induction l as [|x l IH]; simpl; [split; [constructor | reflexivity]|].
  rewrite andb_true_iff, negb_true_iff, IH.
  split.
  - intros [A B]; constructor; auto. rewrite <- mem_Z_In. congruence.
  - intros N; inversion N; subst; split; auto.
    destruct (mem_Z x l) eqn:E; auto. apply mem_Z_In in E. contradiction.
Qed.

Lemma list_of_set_spec (u : list Z) (s : str) :
  list_of_set u s = true <-> NoDup u /\ (forall c, In c u <-> In c s).
Proof.
  unfold list_of_set. rewrite !andb_true_iff, nodup_Z_NoDup, !forallb_forall.
  split.
  - intros [[N A] B]. split; auto. intros c; split; intros I.
    + apply mem_Z_In; auto.
    + apply mem_Z_In; auto.
  - intros [N A]. repeat split; auto; intros c I; apply mem_Z_In; apply A; auto.
Qed.

Lemma enum_from_app (u1 u2 : list Z) : forall i,
  enum_from i (u1 ++ u2) = enum_from i u1 ++ enum_from (i + length u1) u2.
Proof.
  induction u1 as [|c u1 IH]; intros i; simpl.
  - rewrite Nat.add_0_r; reflexivity.
  - rewrite IH. replace (i + S (length u1))%nat with (S i + length u1)%nat by lia.
    reflexivity.
Qed.

Lemma enum_from_keys (u : list Z) : forall i,
  dict_keys (enum_from i u) = map (fun c => [c]) u.
Proof. induction u as [|c u IH]; intros i; simpl; [|rewrite IH]; reflexivity. Qed.

Lemma enum_from_values (u : list Z) : forall i,
  dict_values (enum_from i u) = map Z.of_nat (seq i (length u)).
Proof. induction u as [|c u IH]; intros i; simpl; [|rewrite IH]; reflexivity. Qed.

Lemma enum_from_get (u : list Z) : forall i w k,
  dict_get w (enum_from i u) = Some k ->
  exists c, w = [c] /\ In c u /\ Z.of_nat i <= k < Z.of_nat (i + length u).
Proof.
  induction u as [|c u IH]; intros i w k; simpl; [discriminate|].
  change (key_eqb w [c]) with (str_eqb w [c]).
  destruct (str_eqb w [c]) eqn:E.
  - apply str_eqb_eq in E. intros [= <-]. exists c. split; auto. split; auto. lia.
  - intros G. apply IH in G. destruct G as (c' & -> & I & R).
    exists c'. split; auto. split; auto. lia.
Qed.

Lemma enum_from_In (u : list Z) (c : Z) : forall i,
  In c u -> dict_contains [c] (enum_from i u) = true.
Proof.
  intros i I. apply dict_contains_keys. rewrite enum_from_keys.
  apply (in_map (fun c => [c])); exact I.
Qed.

Lemma enum_from_keys_NoDup (u : list Z) (i : nat) :
  NoDup u -> NoDup (dict_keys (enum_from i u)).
Proof.
  intros N. rewrite enum_from_keys. apply NoDup_map_inj; auto.
  intros a b E; inversion E; reflexivity.
Qed.

Lemma enum_from_values_NoDup (u : list Z) (i : nat) :
  NoDup (dict_values (enum_from i u)).
Proof.
  rewrite enum_from_values. apply NoDup_map_inj.
  - intros a b E; lia.
  - apply seq_NoDup.
Qed.

Lemma build_initial_table_enum (u : list Z) :
  NoDup u -> build_initial_table u = enum_from 0 u.
Proof.
  intros N. unfold build_initial_table.
  set (f := fun (d : dict str Z) (i : nat) =>
              match nth_error u i with
              | Some c => dict_setitem [c] (Z.of_nat i) d
              | None => d
              end).
  assert (G : forall u2 u1, u = u1 ++ u2 ->
            fold_left f (seq (length u1) (length u2)) (enum_from 0 u1)
            = enum_from 0 u).
  { induction u2 as [|c u2 IH]; intros u1 E; simpl.
    - rewrite app_nil_r in E; subst; reflexivity.
    - assert (E' : u = (u1 ++ [c]) ++ u2) by (rewrite <- app_assoc; exact E).
      specialize (IH (u1 ++ [c]) E').
      rewrite length_app in IH; simpl in IH.
      rewrite Nat.add_1_r in IH. rewrite <- IH. f_equal.
      unfold f. rewrite E, nth_error_app2, Nat.sub_diag by lia. simpl.
      rewrite dict_setitem_fresh.
      + rewrite enum_from_app; reflexivity.
      + apply dict_get_None_keys. rewrite enum_from_keys.
        intros I. apply in_map_iff in I. destruct I as (c' & Q & I).
        inversion Q; subst c'. rewrite E in N.
        apply NoDup_remove_2 in N. apply N. apply in_or_app; auto. }
  apply (G u []). reflexivity.
Qed.

Lemma max_code_enum (u : list Z) :
  u <> [] -> NoDup u -> max_code (enum_from 0 u) = Ok (Z.of_nat (length u) - 1).
Proof.
  intros NE N.
  destruct (max_code_spec (enum_from 0 u)) as (m & E & I & B).
  - destruct u; [congruence | discriminate].
  - apply keys_unique_NoDup. apply enum_from_keys_NoDup; exact N.
  - rewrite E. f_equal. rewrite enum_from_values in I, B.
    apply in_map_iff in I. destruct I as (i & <- & I). apply in_seq in I.
    assert (L : (0 < length u)%nat) by (destruct u; simpl; [congruence | lia]).
    specialize (B (Z.of_nat (length u - 1))).
    assert (Z.of_nat (length u - 1) <= Z.of_nat i).
    { apply B. apply in_map. apply in_seq. lia. }
    lia.
Qed.

(** ** compress: the loop invariant *)

Lemma enter_empty : Compress.enter [] = Raise ValueError.
Proof. reflexivity. Qed.

Lemma enter_enum (u : list Z) :
  u <> [] -> NoDup u ->
  Compress.enter u =
  Ok {| Compress.compressed_data := [];
        Compress.initial_table := enum_from 0 u;
        Compress.table := enum_from 0 u;
        Compress.table_size := Z.of_nat (length u);
        Compress.prefix := [] |}.
Proof.
  intros NE N. unfold Compress.enter.
  rewrite (build_initial_table_enum u N), (max_code_enum u NE N). simpl.
  repeat f_equal. lia.
Qed.

Lemma enc_inv_enter (u : list Z) (l : Compress.locals) :
  u <> [] -> NoDup u -> Compress.enter u = Ok l -> enc_inv u l.
Proof.
  intros NE N E. rewrite (enter_enum u NE N) in E. inversion E; subst l; clear E.
  constructor; simpl.
  - left; reflexivity.
  - intros c I. apply enum_from_In; exact I.
  - intros w k G. apply enum_from_get in G. destruct G as (c & _ & _ & R).
    simpl in R. lia.
  - intros k [].
  - reflexivity.
  - lia.
Qed.

Lemma loop_body_inv (u : list Z) (char : Z) (l : Compress.locals) :
  enc_inv u l -> In char u ->
  exists l', Compress.loop_body char l = Ok l'
             /\ enc_inv u l'
             /\ Compress.prefix l' <> [].
Proof.
  intros [P S T Em I Sz] Iu. unfold Compress.loop_body.
  destruct (dict_contains (Compress.prefix l ++ [char]) (Compress.table l)) eqn:C.
  - eexists; split; [reflexivity|]. split.
    + constructor; simpl; [ right; exact C | exact S | exact T | exact Em
                          | exact I | exact Sz ].
    + simpl. destruct (Compress.prefix l); discriminate.
  - destruct P as [P|P].
    { rewrite P in C; simpl in C. rewrite (S char Iu) in C. discriminate. }
    apply dict_contains_true in P. destruct P as [code G].
    unfold dict_getitem. rewrite G. cbn [bind].
    pose proof (T _ _ G) as Rc.
    destruct (Z.gtb_spec (Compress.table_size l) (max_table_size - 1)) as [F|F];
      simpl negb; cbv iota.
    + eexists; split; [reflexivity|]. split; [|simpl; discriminate].
      constructor; simpl;
        [ right; apply S; exact Iu | exact S | exact T | | exact I | exact Sz ].
      intros k Ik. apply in_app_or in Ik. destruct Ik as [Ik|[<-|[]]]; auto.
    + eexists; split; [reflexivity|]. split; [|simpl; discriminate].
      apply dict_contains_false in C.
      constructor; simpl; [ | | | | exact I | unfold max_table_size in *; lia ].
      * right. rewrite dict_contains_setitem. apply orb_true_iff. right.
        apply S; exact Iu.
      * intros c Ic. rewrite dict_contains_setitem. apply orb_true_iff. right.
        apply S; exact Ic.
      * intros w k. rewrite dict_get_setitem.
        destruct (key_eqb (Compress.prefix l ++ [char]) w).
        -- intros [= <-]. lia.
        -- intros G'. apply T in G'. lia.
      * intros k Ik. apply in_app_or in Ik. destruct Ik as [Ik|[<-|[]]].
        -- apply Em in Ik. lia.
        -- lia.
Qed.

Lemma for_each_loop_body_inv (u : list Z) (s : str) : forall l,
  enc_inv u l -> (forall c, In c s -> In c u) ->
  exists l', for_each Compress.loop_body s l = Ok l'
             /\ enc_inv u l'
             /\ (s <> [] -> Compress.prefix l' <> []).
Proof.
  induction s as [|c s IH]; intros l Inv Sub; simpl.
  - exists l. split; [reflexivity|]. split; [exact Inv | congruence].
  - destruct (loop_body_inv u c l Inv) as (l1 & E1 & Inv1 & P1).
    { apply Sub; simpl; auto. }
    rewrite E1; cbn [bind].
    destruct (IH l1 Inv1) as (l2 & E2 & Inv2 & P2).
    { intros c' Ic. apply Sub; simpl; auto. }
    exists l2. split; [exact E2|]. split; [exact Inv2|]. intros _.
    destruct s as [|c' s]; [|apply P2; discriminate].
    simpl in E2. inversion E2; subst; exact P1.
Qed.

Lemma flush_inv (u : list Z) (l : Compress.locals) :
  enc_inv u l ->
  exists l', Compress.flush l = Ok l' /\ enc_inv u l'.
Proof.
  intros Inv. pose proof Inv as [P S T Em I Sz]. unfold Compress.flush.
  destruct (Compress.prefix l) as [|c p] eqn:Ep; simpl str_truthy; cbv iota.
  - exists l; auto.
  - destruct P as [P|P]; [discriminate|].
    apply dict_contains_true in P. destruct P as [code G].
    unfold dict_getitem. rewrite G. cbn [bind].
    eexists; split; [reflexivity|].
    constructor; simpl; [ | exact S | exact T | | exact I | exact Sz ].
    + right. apply dict_contains_true; eauto.
    + intros k Ik. apply in_app_or in Ik. destruct Ik as [Ik|[<-|[]]]; eauto.
Qed.

Lemma run_inv (u : list Z) (s : str) :
  s <> [] -> list_of_set u s = true ->
  exists l, Compress.run u s = Ok l /\ enc_inv u l.
Proof.
  intros NE L. apply list_of_set_spec in L. destruct L as [N Iff].
  assert (NEu : u <> []).
  { destruct s as [|c s]; [congruence|]. intros ->.
    apply (Iff c). simpl; auto. }
  unfold Compress.run.
  destruct (Compress.enter u) as [l0|e] eqn:E0;
    [|rewrite (enter_enum u NEu N) in E0; discriminate].
  cbn [bind].
  pose proof (enc_inv_enter u l0 NEu N E0) as Inv0.
  destruct (for_each_loop_body_inv u s l0 Inv0) as (l1 & E1 & Inv1 & _).
  { intros c; apply Iff. }
  rewrite E1; cbn [bind]. apply flush_inv; exact Inv1.
Qed.

Lemma list_of_set_nil (u : list Z) : list_of_set u [] = true -> u = [].
Proof.
  intros L. apply list_of_set_spec in L. destruct L as [_ Iff].
  destruct u as [|c u]; [reflexivity|]. exfalso. apply (Iff c). simpl; auto.
Qed.

Lemma enum_from_length (u : list Z) : forall i, length (enum_from i u) = length u.
Proof. induction u as [|c u IH]; intros i; simpl; [|rewrite IH]; reflexivity. Qed.

Lemma compress_of_run (u : list Z) (s : str) (l : Compress.locals) :
  Compress.run u s = Ok l ->
  compress u s = Ok (Compress.compressed_data l, Compress.initial_table l).
Proof. intros E. unfold compress. rewrite E. reflexivity. Qed.

(** ** compress: the claims *)

(** C5 (the code departs from the claim).  On the empty string the only
    listing of the characters is the empty one, the initial table is the empty
    dict, and [max] of an empty dict on line 63 raises ValueError: [compress]
    returns neither an empty code sequence nor an empty table. *)
Theorem compress_empty_raises :
  list_of_set [] [] = true /\ compress [] [] = Raise ValueError.
Proof. split; reflexivity. Qed.

(** C7.  On a non-empty input [compress] returns: both lookups [table[prefix]]
    (line 91 on a miss, line 111 for the last prefix), which raise KeyError
    when [prefix] is not a key, find their key, because the working table
    holds every character of the input from the start. *)
Theorem compress_nonempty_returns (u : list Z) (s : str) :
  s <> [] -> list_of_set u s = true ->
  exists codes, compress u s = Ok (codes, build_initial_table u).
Proof.
  intros NE L. destruct (run_inv u s NE L) as (l & E & Inv).
  exists (Compress.compressed_data l).
  rewrite (compress_of_run u s l E). rewrite (inv_initial u l Inv).
  apply list_of_set_spec in L. destruct L as [N _].
  rewrite (build_initial_table_enum u N). reflexivity.
Qed.

Lemma compress_nonempty_returns_witness :
  exists codes,
    compress [84;79;66;69;82;78] TOBE
    = Ok (codes, build_initial_table [84;79;66;69;82;78]).
Proof.
  apply (compress_nonempty_returns [84;79;66;69;82;78] TOBE).
  - discriminate.
  - reflexivity.
Defined.

(** C8 (the code departs from the claim).  The empty string is an input
    string: for it line 57 builds the empty dict, the table the claim
    describes, but line 63 raises before [compress] can return it, so no
    initial table is returned at all. *)
Theorem empty_input_initial_table_not_returned :
  list_of_set [] [] = true
  /\ build_initial_table [] = []
  /\ Compress.enter [] = Raise ValueError
  /\ Compress.run [] [] = Raise ValueError.
Proof. repeat split; reflexivity. Qed.

(** X19.  Whenever [compress] reaches its return, the table it returns is the
    dict built on line 57, whatever was added to the working copy since: it
    has one key per distinct character of the input, each a one-character
    string, and its codes are 0, 1, ..., n-1 in the order of the entries.
    On every non-empty input [compress] does reach its return. *)
Theorem initial_table_dense_and_unchanged (u : list Z) (s : str) :
  list_of_set u s = true ->
  (forall l, Compress.run u s = Ok l ->
     let t := Compress.initial_table l in
     compress u s = Ok (Compress.compressed_data l, t)
     /\ t = build_initial_table u
     /\ NoDup (dict_keys t)
     /\ (forall w, In w (dict_keys t) <-> exists c, w = [c] /\ In c s)
     /\ dict_values t = map Z.of_nat (seq 0 (length t)))
  /\ (s <> [] -> exists l, Compress.run u s = Ok l).
Proof.
  intros L. split.
  - intros l E t.
    assert (NE : s <> []).
    { intros ->. apply list_of_set_nil in L. subst u. discriminate E. }
    destruct (run_inv u s NE L) as (l' & E' & Inv).
    rewrite E in E'. inversion E'; subst l'; clear E'.
    apply list_of_set_spec in L. destruct L as [N Iff].
    assert (Et : t = enum_from 0 u) by (apply (inv_initial u l Inv)).
    split; [apply compress_of_run; exact E|].
    split; [rewrite (build_initial_table_enum u N); exact Et|].
    rewrite Et. split; [apply enum_from_keys_NoDup; exact N|]. split.
    + intros w. rewrite enum_from_keys, in_map_iff. split.
      * intros (c & <- & I). exists c. split; [reflexivity | apply Iff; exact I].
      * intros (c & -> & I). exists c. split; [reflexivity | apply Iff; exact I].
    + rewrite enum_from_values, enum_from_length. reflexivity.
  - intros NE. destruct (run_inv u s NE L) as (l & E & _). eauto.
Qed.

Lemma initial_table_dense_and_unchanged_witness :
  (forall l, Compress.run [84;79;66;69;82;78] TOBE = Ok l ->
     let t := Compress.initial_table l in
     compress [84;79;66;69;82;78] TOBE = Ok (Compress.compressed_data l, t)
     /\ t = build_initial_table [84;79;66;69;82;78]
     /\ NoDup (dict_keys t)
     /\ (forall w, In w (dict_keys t) <-> exists c, w = [c] /\ In c TOBE)
     /\ dict_values t = map Z.of_nat (seq 0 (length t)))
  /\ (TOBE <> [] -> exists l, Compress.run [84;79;66;69;82;78] TOBE = Ok l).
Proof.
  apply (initial_table_dense_and_unchanged [84;79;66;69;82;78] TOBE).
  reflexivity.
Defined.

(** The working copy does grow during that run, and the returned table does
    not: sixteen codes were emitted and fifteen entries added. *)
Example TOBE_tables :
  exists l, Compress.run [84;79;66;69;82;78] TOBE = Ok l
            /\ length (Compress.table l) = 21%nat
            /\ length (Compress.initial_table l) = 6%nat.
Proof. eexists. split; [vm_compute; reflexivity|]. split; reflexivity. Qed.

(** The encoder's ceiling (line 94): from [max_table_size] on, an iteration
    leaves the working table and its counter as they are. *)
Lemma compress_table_frozen (char : Z) (l l' : Compress.locals) :
  max_table_size <= Compress.table_size l ->
  Compress.loop_body char l = Ok l' ->
  Compress.table l' = Compress.table l
  /\ Compress.table_size l' = Compress.table_size l.
Proof.
  intros F. unfold Compress.loop_body.
  destruct (dict_contains _ _).
  - intros [= <-]; simpl; auto.
  - destruct (dict_getitem _ _); cbn [bind]; [|discriminate].
    destruct (Z.gtb_spec (Compress.table_size l) (max_table_size - 1)) as [G|G];
      [|lia].
    simpl negb; cbv iota. intros [= <-]; simpl; auto.
Qed.

(** ** uncompress: the call unfolded *)

Lemma run_unfold (cd : list Z) (table : dict str Z) :
  Uncompress.run (objects cd table) =
  match max_code table with
  | Raise e => (Raise e, objects cd table)
  | Ok m =>
      match cd with
      | [] => (Raise IndexError, objects cd table)
      | first :: rest =>
          match dict_getitem first (dict_invert table) with
          | Raise e => (Raise e, objects rest table)
          | Ok current =>
              (for_each Uncompress.loop_body rest (first_locals m table current),
               objects rest table)
          end
      end
  end.
Proof.
  unfold Uncompress.run, mbind, read_table, lift, pop0, read_compressed_data,
    objects, first_locals; simpl.
  destruct (max_code table) as [m|e]; [|reflexivity].
  destruct cd as [|first rest]; [reflexivity|]. simpl.
  destruct (dict_getitem first (dict_invert table)); reflexivity.
Qed.

Lemma uncompress_unfold (cd : list Z) (table : dict str Z) :
  uncompress cd table =
  match Uncompress.run (objects cd table) with
  | (Ok l, h) => (Ok (Uncompress.uncompressed_data l), h)
  | (Raise e, h) => (Raise e, h)
  end.
Proof.
  unfold uncompress, mbind, ret. fold (objects cd table).
  destruct (Uncompress.run (objects cd table)) as [[l|e] h]; reflexivity.
Qed.

(** ** uncompress: one iteration and the whole loop *)

Lemma dec_step_known (current : Z) (l : Uncompress.locals) (w : str) (c : Z) (w' : str) :
  dict_get current (Uncompress.table l) = Some w -> w = c :: w' ->
  Uncompress.loop_body current l =
  Ok {| Uncompress.uncompressed_data := Uncompress.uncompressed_data l ++ w;
        Uncompress.table :=
          dict_setitem (Uncompress.table_size l) (Uncompress.previous l ++ [c])
            (Uncompress.table l);
        Uncompress.table_size := Uncompress.table_size l + 1;
        Uncompress.previous := w |}.
Proof.
  intros G ->. unfold Uncompress.loop_body, dict_contains, dict_getitem.
  rewrite G. reflexivity.
Qed.

Lemma dec_step_next (l : Uncompress.locals) (c : Z) (p' : str) :
  dict_get (Uncompress.table_size l) (Uncompress.table l) = None ->
  Uncompress.previous l = c :: p' ->
  Uncompress.loop_body (Uncompress.table_size l) l =
  Ok {| Uncompress.uncompressed_data :=
          Uncompress.uncompressed_data l ++ (Uncompress.previous l ++ [c]);
        Uncompress.table :=
          dict_setitem (Uncompress.table_size l) (Uncompress.previous l ++ [c])
            (Uncompress.table l);
        Uncompress.table_size := Uncompress.table_size l + 1;
        Uncompress.previous := Uncompress.previous l ++ [c] |}.
Proof.
  intros G P. unfold Uncompress.loop_body, dict_contains.
  rewrite G, Z.eqb_refl, P. reflexivity.
Qed.

Lemma dec_step_bad (current : Z) (l : Uncompress.locals) :
  dict_get current (Uncompress.table l) = None ->
  current <> Uncompress.table_size l ->
  Uncompress.loop_body current l = Raise ValueError.
Proof.
  intros G N. unfold Uncompress.loop_body, dict_contains.
  rewrite G. apply Z.eqb_neq in N. rewrite N. reflexivity.
Qed.

Lemma dec_step_cases (current : Z) (l : Uncompress.locals) :
  dec_nonempty l ->
  (exists l', Uncompress.loop_body current l = Ok l'
              /\ dec_nonempty l'
              /\ Uncompress.table_size l' = Uncompress.table_size l + 1
              /\ (forall k, dict_contains k (Uncompress.table l')
                            = (Uncompress.table_size l =? k)
                              || dict_contains k (Uncompress.table l))
              /\ (dict_contains current (Uncompress.table l) = true
                  \/ current = Uncompress.table_size l))
  \/ (Uncompress.loop_body current l = Raise ValueError
      /\ dict_contains current (Uncompress.table l) = false
      /\ current <> Uncompress.table_size l).
Proof.
  intros [P T].
  destruct (Uncompress.previous l) as [|c p'] eqn:Ep; [congruence|].
  destruct (dict_get current (Uncompress.table l)) as [w|] eqn:G.
  - left. pose proof (T _ _ G) as Nw.
    destruct w as [|c' w']; [congruence|].
    rewrite (dec_step_known current l _ c' w' G eq_refl).
    eexists; split; [reflexivity|]. simpl.
    refine (conj (conj _ _) (conj eq_refl (conj _ _))).
    + simpl; discriminate.
    + simpl. intros k w. rewrite dict_get_setitem.
      destruct (key_eqb (Uncompress.table_size l) k).
      * intros [= <-]. rewrite Ep. discriminate.
      * apply T.
    + intros k. apply dict_contains_setitem.
    + left. apply dict_contains_true; eauto.
  - destruct (Z.eq_dec current (Uncompress.table_size l)) as [->|N].
    + left. rewrite (dec_step_next l c p' G Ep).
      eexists; split; [reflexivity|]. simpl.
      refine (conj (conj _ _) (conj eq_refl (conj _ _))).
      * simpl. rewrite Ep; discriminate.
      * simpl. intros k w. rewrite dict_get_setitem.
        destruct (key_eqb (Uncompress.table_size l) k).
        -- intros [= <-]. rewrite Ep. discriminate.
        -- apply T.
      * intros k. apply dict_contains_setitem.
      * right; reflexivity.
    + right. split; [apply dec_step_bad; assumption|].
      split; [apply dict_contains_false; exact G | exact N].
Qed.

(** The loop returns exactly when every code is a key of the table the loop
    started with, or lies between the counter the loop started with and the
    counter at its own iteration; otherwise it raises ValueError (line 202). *)
Lemma dec_loop_cases (codes : list Z) : forall l,
  dec_nonempty l ->
  (exists l', for_each Uncompress.loop_body codes l = Ok l'
              /\ Uncompress.table_size l'
                 = Uncompress.table_size l + Z.of_nat (length codes)
              /\ (forall k, dict_contains k (Uncompress.table l') = true <->
                            dict_contains k (Uncompress.table l) = true
                            \/ Uncompress.table_size l <= k
                               < Uncompress.table_size l')
              /\ (forall j c, nth_error codes j = Some c ->
                    dict_contains c (Uncompress.table l) = true
                    \/ Uncompress.table_size l <= c
                       <= Uncompress.table_size l + Z.of_nat j))
  \/ (for_each Uncompress.loop_body codes l = Raise ValueError
      /\ exists j c, nth_error codes j = Some c
           /\ dict_contains c (Uncompress.table l) = false
           /\ ~ (Uncompress.table_size l <= c
                 <= Uncompress.table_size l + Z.of_nat j)).
Proof.
  induction codes as [|c codes IH]; intros l NE.
  - left. exists l. simpl. split; [reflexivity|]. split; [lia|]. split.
    + intros k. split; [auto | intros [A|A]; [exact A | lia]].
    + intros [|j] c'; discriminate.
  - simpl for_each.
    destruct (dec_step_cases c l NE) as [(l1 & E1 & NE1 & S1 & K1 & A1)|(E1 & C1 & N1)].
    + rewrite E1; cbn [bind].
      destruct (IH l1 NE1) as [(l2 & E2 & S2 & K2 & A2)|(E2 & j & c' & Nj & Cj & Rj)].
      * left. exists l2. split; [exact E2|].
        split; [rewrite S2, S1; simpl length; lia|]. split.
        -- intros k. rewrite K2, K1, orb_true_iff, Z.eqb_eq. rewrite S1.
           assert (0 <= Z.of_nat (length codes)) by lia.
           split; [intros [[Q|Q]|Q] | intros [Q|Q]]; auto; try (right; lia).
           destruct (Z.eq_dec (Uncompress.table_size l) k); [auto | right; lia].
        -- intros [|j] c' Nj; simpl in Nj.
           ++ inversion Nj; subst c'. destruct A1 as [A1|A1]; [auto | right; lia].
           ++ apply A2 in Nj. rewrite K1, orb_true_iff, Z.eqb_eq, S1 in Nj.
              destruct Nj as [[Q|Q]|Q]; [right; lia | left; exact Q | right; lia].
      * right. split; [exact E2|]. exists (S j), c'. split; [exact Nj|].
        rewrite K1 in Cj. apply orb_false_iff in Cj. destruct Cj as [Q Cj].
        apply Z.eqb_neq in Q. split; [exact Cj|]. rewrite S1 in Rj. lia.
    + right. rewrite E1; cbn [bind]. split; [reflexivity|].
      exists 0%nat, c. split; [reflexivity|]. split; [exact C1|]. simpl. lia.
Qed.

(** ** uncompress: the claims *)

(** C6 (the code departs from the claim).  With no code to consume
    [uncompress] does not return the empty string: on the empty table [max]
    of an empty dict raises ValueError (line 165), and on any other table
    [pop(0)] of the empty list raises IndexError (line 181); nothing skips
    either step. *)
Theorem uncompress_empty_raises :
  uncompress [] [] = (Raise ValueError, objects [] [])
  /\ uncompress [] [([97], 0)] = (Raise IndexError, objects [] [([97], 0)]).
Proof. split; reflexivity. Qed.

(** C10, as the claim states it, fails: after a successful call on the list
    [[0]] the caller's list is empty. *)
Lemma uncompress_changes_its_list :
  uncompress [0] [([97], 0)] = (Ok [97], objects [] [([97], 0)])
  /\ compressed_data_obj (snd (uncompress [0] [([97], 0)])) <> [0].
Proof. split; [reflexivity | discriminate]. Qed.

(** C10, amended.  A successful call leaves the caller's table as it was and
    removes exactly the first element of the caller's list. *)
Theorem uncompress_effect_on_arguments
  (cd : list Z) (table : dict str Z) (out : str) (h : caller_objects) :
  uncompress cd table = (Ok out, h) ->
  table_obj h = table
  /\ exists first, cd = first :: compressed_data_obj h.
Proof.
  rewrite uncompress_unfold, run_unfold.
  destruct (max_code table) as [m|e]; [|discriminate].
  destruct cd as [|first rest]; [discriminate|].
  destruct (dict_getitem first (dict_invert table)) as [w|e]; [|discriminate].
  destruct (for_each _ _ _) as [l|e]; [|discriminate].
  intros [= _ <-]. simpl. eauto.
Qed.

Lemma uncompress_effect_on_arguments_witness :
  table_obj (objects [1; 2] [([97], 0)]) = [([97], 0)]
  /\ exists first, [0; 1; 2] = first :: compressed_data_obj (objects [1; 2] [([97], 0)]).
Proof.
  apply (uncompress_effect_on_arguments
           [0; 1; 2] [([97], 0)] [97; 97; 97; 97; 97; 97]).
  reflexivity.
Defined.

(** The decoder has no ceiling: every iteration that does not raise adds an
    entry at the counter and advances it, wherever the counter stands. *)
Lemma uncompress_step_always_adds (current : Z) (l l' : Uncompress.locals) :
  Uncompress.loop_body current l = Ok l' ->
  dict_contains (Uncompress.table_size l) (Uncompress.table l') = true
  /\ Uncompress.table_size l' = Uncompress.table_size l + 1.
Proof.
  unfold Uncompress.loop_body. intros E.
  apply bind_Ok_inv in E. destruct E as (output & _ & E).
  apply bind_Ok_inv in E. destruct E as (c & _ & E).
  inversion E; subst l'; clear E. simpl. split; [|reflexivity].
  rewrite dict_contains_setitem.
  change (key_eqb (Uncompress.table_size l) (Uncompress.table_size l))
    with (Uncompress.table_size l =? Uncompress.table_size l).
  rewrite Z.eqb_refl. reflexivity.
Qed.

(** C3 (the code departs from the claim on the decode side).  The counter is
    [max_table_size] when the loop of [uncompress] starts, and the one
    iteration still adds an entry, at key [max_table_size]. *)
Theorem uncompress_grows_past_max_table_size :
  max_code [([97], 65535)] = Ok (max_table_size - 1)
  /\ exists l h,
       Uncompress.run (objects [65535; 65535] [([97], 65535)]) = (Ok l, h)
       /\ Uncompress.table l = [(65535, [97]); (max_table_size, [97; 97])]
       /\ Uncompress.table_size l = max_table_size + 1.
Proof.
  split; [reflexivity|]. eexists. eexists.
  split; [vm_compute; reflexivity|]. split; reflexivity.
Qed.

(** C2, as the claim states it, fails on the first code: it is looked up with
    [table[...]] alone (line 181), so a first code equal to the counter, here
    1, raises KeyError. *)
Lemma first_code_equal_to_counter_raises :
  max_code [([97], 0)] = Ok 0
  /\ fst (uncompress [0 + 1] [([97], 0)]) = Raise KeyError.
Proof. split; reflexivity. Qed.

Lemma symbol_table_spec (table : dict str Z) :
  symbol_table table = true ->
  NoDup (dict_keys table)
  /\ forall w k, In (w, k) table -> exists c, w = [c].
Proof.
  unfold symbol_table. rewrite andb_true_iff, keys_unique_NoDup, forallb_forall.
  intros [N F]. split; [exact N|]. intros w k I.
  specialize (F _ I). simpl in F. apply Nat.eqb_eq in F.
  destruct w as [|c [|c' w]]; try discriminate. eauto.
Qed.

Lemma first_locals_nonempty (table : dict str Z) (m first : Z) (current : str) :
  symbol_table table = true ->
  dict_getitem first (dict_invert table) = Ok current ->
  dec_nonempty (first_locals m table current).
Proof.
  intros ST G. apply symbol_table_spec in ST. destruct ST as [_ Ch].
  unfold dict_getitem in G.
  destruct (dict_get first (dict_invert table)) as [w|] eqn:E; [|discriminate].
  inversion G; subst w; clear G.
  split; simpl.
  - apply dict_invert_get in E. apply Ch in E. destruct E as [c ->]. discriminate.
  - intros k w G. apply dict_invert_get in G. apply Ch in G.
    destruct G as [c ->]. discriminate.
Qed.

(** The working table and the counter during the loop are what [known_code]
    and [next_code] say. *)
Lemma working_table_at (table : dict str Z) (m first : Z) (current : str)
  (codes : list Z) (l : Uncompress.locals) :
  symbol_table table = true ->
  dict_getitem first (dict_invert table) = Ok current ->
  for_each Uncompress.loop_body codes (first_locals m table current) = Ok l ->
  Uncompress.table_size l = next_code m (length codes)
  /\ forall c, dict_contains c (Uncompress.table l) = true
               <-> known_code table m (length codes) c.
Proof.
  intros ST G E.
  pose proof (first_locals_nonempty table m first current ST G) as NE.
  destruct (dec_loop_cases codes _ NE) as [(l' & E' & S' & K' & _)|(E' & _)];
    [|congruence].
  rewrite E in E'. inversion E'; subst l'; clear E'.
  simpl in S', K'. split; [exact S'|].
  intros c. rewrite K', S'. unfold known_code.
  rewrite dict_invert_contains. reflexivity.
Qed.

(** C2, amended.  On a non-empty table of characters and a non-empty list of
    codes, [uncompress] raises exactly when the first code is not a key of
    the inverted table, or a later code is neither a key of the working table
    nor the counter; it returns a string exactly when the first code is a key
    and every later code is one or the other. *)
Theorem uncompress_raises_iff
  (table : dict str Z) (m first : Z) (rest : list Z) :
  symbol_table table = true ->
  max_code table = Ok m ->
  ((exists e, fst (uncompress (first :: rest) table) = Raise e) <->
     ~ In first (dict_values table)
     \/ exists j c, nth_error rest j = Some c
                    /\ ~ known_code table m j c /\ c <> next_code m j)
  /\ ((exists out, fst (uncompress (first :: rest) table) = Ok out) <->
        In first (dict_values table)
        /\ forall j c, nth_error rest j = Some c ->
                       known_code table m j c \/ c = next_code m j).
Proof.
  intros ST M. rewrite uncompress_unfold, run_unfold, M.
  unfold known_code, next_code.
  destruct (dict_getitem first (dict_invert table)) as [w|e] eqn:G.
  - pose proof (first_locals_nonempty table m first w ST G) as NE.
    assert (I1 : In first (dict_values table)).
    { apply dict_invert_contains. apply dict_contains_true.
      unfold dict_getitem in G.
      destruct (dict_get first (dict_invert table)); [eauto | discriminate]. }
    destruct (dec_loop_cases rest _ NE)
      as [(l' & E' & _ & _ & A)|(E' & j & c & Nj & Cj & Rj)];
      rewrite E'; simpl in *.
    + assert (Good : forall j c, nth_error rest j = Some c ->
                (In c (dict_values table) \/ m + 1 <= c < m + 1 + Z.of_nat j)
                \/ c = m + 1 + Z.of_nat j).
      { intros j c Nj. destruct (A j c Nj) as [Q|Q].
        - left; left. apply dict_invert_contains; exact Q.
        - destruct (Z.eq_dec c (m + 1 + Z.of_nat j)); [auto | left; right; lia]. }
      split; split.
      * intros [e Q]; discriminate.
      * intros [Q|(j & c & Nj & NK & NN)]; [contradiction|].
        destruct (Good j c Nj); contradiction.
      * intros _. split; assumption.
      * intros _. eauto.
    + assert (Bad : exists j c, nth_error rest j = Some c
                /\ ~ (In c (dict_values table) \/ m + 1 <= c < m + 1 + Z.of_nat j)
                /\ c <> m + 1 + Z.of_nat j).
      { exists j, c. split; [exact Nj|]. split; [|lia].
        intros [Q|Q]; [|lia]. apply dict_invert_contains in Q. congruence. }
      split; split.
      * intros _. right. exact Bad.
      * intros _. eauto.
      * intros [out Q]; discriminate.
      * intros [_ Good]. destruct Bad as (j' & c' & Nj' & NK & NN).
        destruct (Good j' c' Nj'); contradiction.
  - assert (I1 : ~ In first (dict_values table)).
    { intros I. apply dict_invert_contains in I. apply dict_contains_true in I.
      destruct I as [w Q]. unfold dict_getitem in G. rewrite Q in G. discriminate. }
    simpl. split; split.
    + intros _. left; exact I1.
    + intros _. eauto.
    + intros [out Q]; discriminate.
    + intros [Q _]. contradiction.
Qed.

Lemma uncompress_raises_iff_witness :
  ((exists e, fst (uncompress (0 :: [1; 2]) [([97], 0)]) = Raise e) <->
     ~ In 0 (dict_values [([97], 0)])
     \/ exists j c, nth_error [1; 2] j = Some c
                    /\ ~ known_code [([97], 0)] 0 j c /\ c <> next_code 0 j)
  /\ ((exists out, fst (uncompress (0 :: [1; 2]) [([97], 0)]) = Ok out) <->
        In 0 (dict_values [([97], 0)])
        /\ forall j c, nth_error [1; 2] j = Some c ->
                       known_code [([97], 0)] 0 j c \/ c = next_code 0 j).
Proof.
  apply (uncompress_raises_iff [([97], 0)] 0 0 [1; 2]).
  - reflexivity.
  - reflexivity.
Defined.

Example uncompress_bad_later_code :
  fst (uncompress [0; 3] [([97], 0)]) = Raise ValueError.
Proof. reflexivity. Qed.

(** ** The round trip *)

(** The decoder consumes the code of the encoder's current prefix. *)
Lemma sim_emit (el : Compress.locals) (dl : Uncompress.locals) (h k : Z) :
  sim el dl h ->
  dict_get (Compress.prefix el) (Compress.table el) = Some k ->
  Uncompress.loop_body k dl =
  Ok {| Uncompress.uncompressed_data :=
          Uncompress.uncompressed_data dl ++ Compress.prefix el;
        Uncompress.table :=
          dict_setitem (Uncompress.table_size dl)
            (Uncompress.previous dl ++ [h]) (Uncompress.table dl);
        Uncompress.table_size := Uncompress.table_size dl + 1;
        Uncompress.previous := Compress.prefix el |}.
Proof.
  intros [[p' Hp] Pv _ Tb Ky _] G.
  destruct (Tb _ _ G) as [D|[-> W]].
  - rewrite (dec_step_known k dl _ h p' D Hp). reflexivity.
  - destruct (Uncompress.previous dl) as [|c q] eqn:Eq; [congruence|].
    assert (c = h) by (rewrite Hp in W; simpl in W; congruence). subst c.
    assert (N : dict_get (Uncompress.table_size dl) (Uncompress.table dl) = None).
    { apply dict_contains_false.
      destruct (dict_contains (Uncompress.table_size dl) (Uncompress.table dl)) eqn:C;
        [|reflexivity].
      apply Ky in C. lia. }
    rewrite (dec_step_next dl h q N Eq). rewrite Eq, <- W. reflexivity.
Qed.

(** After a miss: the encoder has emitted the code of its prefix, perhaps
    added an entry, and restarted from [char]; the decoder has consumed that
    code. *)
Lemma sim_miss (el el' : Compress.locals) (dl dl' : Uncompress.locals)
  (h k char : Z) :
  sim el dl h ->
  dict_contains [char] (Compress.table el) = true ->
  dict_contains (Compress.prefix el ++ [char]) (Compress.table el) = false ->
  dict_get (Compress.prefix el) (Compress.table el) = Some k ->
  Compress.loop_body char el = Ok el' ->
  Uncompress.loop_body k dl = Ok dl' ->
  sim el' dl' char
  /\ Compress.compressed_data el' = Compress.compressed_data el ++ [k]
  /\ Compress.initial_table el' = Compress.initial_table el
  /\ Compress.prefix el' = [char]
  /\ (forall c, dict_contains [c] (Compress.table el) = true ->
                dict_contains [c] (Compress.table el') = true)
  /\ Uncompress.uncompressed_data dl'
     = Uncompress.uncompressed_data dl ++ Compress.prefix el.
Proof.
  intros S Sg Miss G E D.
  rewrite (sim_emit el dl h k S G) in D. inversion D; subst dl'; clear D.
  destruct S as [[p' Hp] Pv Kn Tb Ky [Sz1 Sz2]].
  assert (OldEntries : forall w k0,
            dict_get w (Compress.table el) = Some k0 ->
            dict_get k0 (dict_setitem (Uncompress.table_size dl)
                           (Uncompress.previous dl ++ [h]) (Uncompress.table dl))
            = Some w).
  { intros w k0 G0. destruct (Tb _ _ G0) as [Q|[-> ->]].
    - rewrite dict_get_setitem_other; [exact Q|].
      intros <-. assert (C : dict_contains (Uncompress.table_size dl)
                               (Uncompress.table dl) = true)
        by (apply dict_contains_true; eauto).
      apply Ky in C. lia.
    - apply dict_get_setitem_same. }
  assert (NewKeys : forall k0,
            dict_contains k0 (dict_setitem (Uncompress.table_size dl)
                                (Uncompress.previous dl ++ [h]) (Uncompress.table dl))
            = true -> k0 < Uncompress.table_size dl + 1).
  { intros k0. rewrite dict_contains_setitem, orb_true_iff.
    intros [Q|Q]; [apply Z.eqb_eq in Q; lia | apply Ky in Q; lia]. }
  unfold Compress.loop_body in E. rewrite Miss in E.
  unfold dict_getitem in E. rewrite G in E. cbn [bind] in E.
  destruct (Z.gtb_spec (Compress.table_size el) (max_table_size - 1)) as [F|F];
    simpl negb in E; cbv iota in E; inversion E; subst el'; clear E; simpl.
  - refine (conj _ (conj eq_refl (conj eq_refl (conj eq_refl (conj _ eq_refl))))).
    + constructor; simpl.
      * exists []; reflexivity.
      * rewrite Hp; discriminate.
      * exact Sg.
      * intros w k0 G0. left. apply OldEntries; exact G0.
      * exact NewKeys.
      * change (max_table_size - 1) with 65535 in *. split; lia.
    + auto.
  - refine (conj _ (conj eq_refl (conj eq_refl (conj eq_refl (conj _ eq_refl))))).
    + constructor; simpl.
      * exists []; reflexivity.
      * rewrite Hp; discriminate.
      * rewrite dict_contains_setitem, Sg. apply orb_true_r.
      * intros w k0. rewrite dict_get_setitem.
        destruct (key_eqb_case (Compress.prefix el ++ [char]) w) as [[<- Q]|[N Q]];
          rewrite Q.
        -- intros [= <-]. right. split; [lia | reflexivity].
        -- intros G0. left. apply OldEntries; exact G0.
      * exact NewKeys.
      * change (max_table_size - 1) with 65535 in *. split; lia.
    + intros c Q. rewrite dict_contains_setitem, Q. apply orb_true_r.
Qed.

(** Once the decoder has consumed the code of the encoder's prefix, it
    holds every entry the encoder held when it emitted that code. *)
Lemma sim_old_entries (el : Compress.locals) (dl : Uncompress.locals) (h : Z) :
  sim el dl h ->
  forall w k, dict_get w (Compress.table el) = Some k ->
    dict_get k (dict_setitem (Uncompress.table_size dl)
                  (Uncompress.previous dl ++ [h]) (Uncompress.table dl))
    = Some w.
Proof.
  intros [_ _ _ Tb Ky _] w k G. destruct (Tb _ _ G) as [Q|[-> ->]].
  - rewrite dict_get_setitem_other; [exact Q|].
    intros <-. assert (C : dict_contains (Uncompress.table_size dl)
                             (Uncompress.table dl) = true)
      by (apply dict_contains_true; eauto).
    apply Ky in C. lia.
  - apply dict_get_setitem_same.
Qed.

Lemma sim_loop (u : list Z) (rest : str) : forall el dl h,
  sim el dl h ->
  (forall c, In c u -> dict_contains [c] (Compress.table el) = true) ->
  (forall c, In c rest -> In c u) ->
  exists el' ks dl',
    (l1 <- for_each Compress.loop_body rest el ;; Compress.flush l1) = Ok el'
    /\ Compress.compressed_data el' = Compress.compressed_data el ++ ks
    /\ Compress.initial_table el' = Compress.initial_table el
    /\ for_each Uncompress.loop_body ks dl = Ok dl'
    /\ Uncompress.uncompressed_data dl'
       = Uncompress.uncompressed_data dl ++ Compress.prefix el ++ rest
    /\ (forall w k, dict_get w (Compress.table el') = Some k ->
                    dict_get k (Uncompress.table dl') = Some w).
Proof.
  induction rest as [|c rest IH]; intros el dl h S Sg Sub.
  - pose proof S as [[p' Hp] _ Kn _ _ _].
    apply dict_contains_true in Kn. destruct Kn as [k G].
    simpl for_each; cbn [bind]. unfold Compress.flush, dict_getitem.
    assert (Tr : str_truthy (Compress.prefix el) = true)
      by (rewrite Hp; reflexivity).
    rewrite G, Tr. cbn [bind].
    eexists. exists [k]. eexists. split; [reflexivity|]. simpl.
    split; [reflexivity|]. split; [reflexivity|].
    rewrite (sim_emit el dl h k S G). cbn [bind].
    split; [reflexivity|]. simpl.
    split; [rewrite app_nil_r; reflexivity|].
    apply (sim_old_entries el dl h S).
  - assert (Ic : In c u) by (apply Sub; simpl; auto).
    assert (Sub' : forall c', In c' rest -> In c' u)
      by (intros c' I; apply Sub; simpl; auto).
    simpl for_each.
    destruct (dict_contains (Compress.prefix el ++ [c]) (Compress.table el)) eqn:Hit.
    + unfold Compress.loop_body at 1. rewrite Hit. cbn [bind].
      set (el1 := {| Compress.compressed_data := Compress.compressed_data el;
                     Compress.initial_table := Compress.initial_table el;
                     Compress.table := Compress.table el;
                     Compress.table_size := Compress.table_size el;
                     Compress.prefix := Compress.prefix el ++ [c] |}).
      assert (S1 : sim el1 dl h).
      { destruct S as [[p' Hp] Pv Kn Tb Ky Sz]. constructor; simpl; auto.
        exists (p' ++ [c]). rewrite Hp. reflexivity. }
      destruct (IH el1 dl h S1 Sg Sub')
        as (el' & ks & dl' & E & Cd & It & D & Out & Sym).
      exists el', ks, dl'. repeat (split; [assumption|]).
      split; [|exact Sym].
      rewrite Out. simpl. rewrite <- app_assoc. reflexivity.
    + pose proof S as [[p' Hp] _ Kn _ _ _].
      apply dict_contains_true in Kn. destruct Kn as [k G].
      destruct (Compress.loop_body c el) as [el1|e] eqn:E1.
      2:{ unfold Compress.loop_body, dict_getitem in E1.
          rewrite Hit, G in E1. cbn [bind] in E1.
          destruct (negb _) in E1; discriminate. }
      cbn [bind].
      pose proof (sim_emit el dl h k S G) as D1.
      destruct (sim_miss el el1 dl _ h k c S (Sg c Ic) Hit G E1 D1)
        as (S1 & Cd1 & It1 & P1 & Sg1 & Out1).
      destruct (IH el1 _ c S1 (fun c' I => Sg1 c' (Sg c' I)) Sub')
        as (el' & ks & dl' & E & Cd & It & D & Out & Sym).
      exists el', (k :: ks), dl'. split; [exact E|].
      split; [rewrite Cd, Cd1, <- app_assoc; reflexivity|].
      split; [rewrite It, It1; reflexivity|].
      split; [simpl for_each; rewrite D1; cbn [bind]; exact D|].
      split; [|exact Sym].
      rewrite Out, Out1, P1. simpl. rewrite <- app_assoc. reflexivity.
Qed.

Lemma enum_from_invert_get (u : list Z) (w : str) (k : Z) :
  dict_get w (enum_from 0 u) = Some k ->
  dict_get k (dict_invert (enum_from 0 u)) = Some w.
Proof.
  intros G. apply dict_invert_In.
  - apply enum_from_values_NoDup.
  - apply dict_get_In; exact G.
Qed.

Lemma enum_from_long_key (u : list Z) (i : nat) (c1 c2 : Z) (w : str) :
  dict_contains (c1 :: c2 :: w) (enum_from i u) = false.
Proof.
  destruct (dict_contains (c1 :: c2 :: w) (enum_from i u)) eqn:C; [|reflexivity].
  apply dict_contains_true in C. destruct C as [k G].
  apply enum_from_get in G. destruct G as (c & Q & _). discriminate.
Qed.

(** The first emission: the encoder, holding the first character, misses on
    the second; the decoder has consumed that first code on line 181. *)
Lemma sim_first (u : list Z) (c1 c2 k1 : Z) :
  In c2 u ->
  dict_get [c1] (enum_from 0 u) = Some k1 ->
  exists el1,
    Compress.loop_body c2
      {| Compress.compressed_data := [];
         Compress.initial_table := enum_from 0 u;
         Compress.table := enum_from 0 u;
         Compress.table_size := Z.of_nat (length u);
         Compress.prefix := [c1] |} = Ok el1
    /\ sim el1 (first_locals (Z.of_nat (length u) - 1) (enum_from 0 u) [c1]) c2
    /\ Compress.compressed_data el1 = [k1]
    /\ Compress.initial_table el1 = enum_from 0 u
    /\ Compress.prefix el1 = [c2]
    /\ (forall c, In c u -> dict_contains [c] (Compress.table el1) = true).
Proof.
  intros I2 G1.
  assert (Keys : forall k, dict_contains k (dict_invert (enum_from 0 u)) = true ->
                           k < Z.of_nat (length u) - 1 + 1).
  { intros k C. apply dict_invert_contains in C.
    rewrite enum_from_values in C. apply in_map_iff in C.
    destruct C as (i & <- & I). apply in_seq in I. lia. }
  unfold Compress.loop_body. simpl Compress.prefix. simpl Compress.table.
  simpl app. rewrite enum_from_long_key.
  unfold dict_getitem. rewrite G1. cbn [bind]. simpl Compress.table_size.
  destruct (Z.gtb_spec (Z.of_nat (length u)) (max_table_size - 1)) as [F|F];
    simpl negb; cbv iota; eexists; (split; [reflexivity|]); simpl;
    change (max_table_size - 1) with 65535 in *.
  - refine (conj _ (conj eq_refl (conj eq_refl (conj eq_refl _)))).
    + constructor; simpl.
      * exists []; reflexivity.
      * discriminate.
      * apply enum_from_In; exact I2.
      * intros w k G. left. apply enum_from_invert_get; exact G.
      * exact Keys.
      * split; lia.
    + intros c I. apply enum_from_In; exact I.
  - refine (conj _ (conj eq_refl (conj eq_refl (conj eq_refl _)))).
    + constructor; simpl.
      * exists []; reflexivity.
      * discriminate.
      * rewrite dict_contains_setitem, (enum_from_In u c2 0 I2). apply orb_true_r.
      * intros w k. rewrite dict_get_setitem.
        destruct (key_eqb_case [c1; c2] w) as [[<- Q]|[N Q]]; rewrite Q.
        -- intros [= <-]. right. split; [lia | reflexivity].
        -- intros G. left. apply enum_from_invert_get; exact G.
      * exact Keys.
      * split; lia.
    + intros c I. rewrite dict_contains_setitem, (enum_from_In u c 0 I).
      apply orb_true_r.
Qed.

(** The two runs side by side on a non-empty input: [compress] returns,
    [uncompress] on what it returned reaches its return with the input as its
    output, and its working table then holds every entry of the encoder's. *)
Lemma run_then_run (u : list Z) (s : str) :
  s <> [] -> list_of_set u s = true ->
  exists el dl,
    Compress.run u s = Ok el
    /\ Compress.initial_table el = enum_from 0 u
    /\ Uncompress.run (objects (Compress.compressed_data el) (enum_from 0 u))
       = (Ok dl, objects (tl (Compress.compressed_data el)) (enum_from 0 u))
    /\ Uncompress.uncompressed_data dl = s
    /\ (forall w k, dict_get w (Compress.table el) = Some k ->
                    dict_get k (Uncompress.table dl) = Some w).
Proof.
  intros NE L. apply list_of_set_spec in L. destruct L as [N Iff].
  destruct s as [|c1 rest]; [congruence|]. clear NE.
  assert (I1 : In c1 u) by (apply Iff; simpl; auto).
  assert (NEu : u <> []) by (intros ->; exact I1).
  assert (Sub : forall c, In c rest -> In c u)
    by (intros c I; apply Iff; simpl; auto).
  pose proof (enum_from_In u c1 0 I1) as C1.
  pose proof C1 as G1. apply dict_contains_true in G1. destruct G1 as [k1 G1].
  pose proof (enum_from_invert_get u _ _ G1) as D1.
  unfold Compress.run.
  rewrite (enter_enum u NEu N). cbn [bind]. simpl for_each.
  unfold Compress.loop_body at 1. simpl Compress.prefix. simpl Compress.table.
  simpl app. rewrite C1. cbn [bind]. simpl.
  destruct rest as [|c2 rest].
  - simpl for_each. cbn [bind]. unfold Compress.flush. simpl.
    unfold dict_getitem. rewrite G1. cbn [bind]. simpl.
    eexists. eexists. split; [reflexivity|]. simpl. split; [reflexivity|].
    rewrite run_unfold, (max_code_enum u NEu N).
    unfold dict_getitem. rewrite D1. simpl for_each.
    split; [reflexivity|]. simpl. split; [reflexivity|].
    intros w k G. apply enum_from_invert_get; exact G.
  - destruct (sim_first u c1 c2 k1 (Sub c2 (or_introl eq_refl)) G1)
      as (el1 & E1 & S1 & Cd1 & It1 & P1 & Sg1).
    simpl for_each. rewrite E1. cbn [bind].
    destruct (sim_loop u rest el1 _ c2 S1 Sg1
                (fun c I => Sub c (or_intror I)))
      as (el' & ks & dl' & E & Cd & It & D & Out & Sym).
    rewrite E. exists el', dl'. split; [reflexivity|].
    split; [rewrite It, It1; reflexivity|].
    rewrite Cd, Cd1. simpl app. simpl tl.
    rewrite run_unfold, (max_code_enum u NEu N).
    unfold dict_getitem. rewrite D1, D.
    split; [reflexivity|]. split; [|exact Sym].
    rewrite Out, P1. reflexivity.
Qed.

(** What [compress] returns on a non-empty input decodes to that input. *)
Lemma run_then_uncompress (u : list Z) (s : str) :
  s <> [] -> list_of_set u s = true ->
  exists l, Compress.run u s = Ok l
            /\ Compress.initial_table l = enum_from 0 u
            /\ fst (uncompress (Compress.compressed_data l) (enum_from 0 u))
               = Ok s.
Proof.
  intros NE L.
  destruct (run_then_run u s NE L) as (el & dl & E & It & D & Out & _).
  exists el. split; [exact E|]. split; [exact It|].
  rewrite uncompress_unfold, D, Out. reflexivity.
Qed.

(** X1.  The round trip on every non-empty input, whatever the listing of its
    characters, however many they are and however long the input: the
    encoder's ceiling and its absence from the decoder do not matter, because
    the encoder never emits a code the decoder added past the ceiling. *)
Theorem roundtrip_nonempty (u : list Z) (s : str) :
  s <> [] -> list_of_set u s = true -> roundtrip u s = Ok s.
Proof.
  intros NE L.
  destruct (run_then_uncompress u s NE L) as (l & E & It & D).
  unfold roundtrip. rewrite (compress_of_run u s l E). cbn [bind fst snd].
  rewrite It. exact D.
Qed.

Lemma roundtrip_nonempty_witness : roundtrip [84;79;66;69;82;78] TOBE = Ok TOBE.
Proof.
  apply (roundtrip_nonempty [84;79;66;69;82;78] TOBE).
  - discriminate.
  - reflexivity.
Defined.

(** C1 (the code departs from the claim).  The empty string is a finite
    symbol sequence, and its round trip raises: [compress] fails on line 63
    before anything is emitted.  Every other input round-trips
    ([roundtrip_nonempty]). *)
Theorem roundtrip_empty_raises :
  list_of_set [] [] = true /\ roundtrip [] [] = Raise ValueError.
Proof. split; reflexivity. Qed.

(** ** The binary layout *)

Lemma Z_of_byte_of_Z (x : Z) : 0 <= x <= 255 -> Z_of_byte (byte_of_Z x) = x.
Proof.
  intros R. unfold Z_of_byte, byte_of_Z.
  destruct (Byte.of_N (Z.to_N x)) as [b|] eqn:E.
  - apply Byte.to_of_N in E. rewrite E. apply Z2N.id. lia.
  - apply Byte.of_N_None_iff in E. lia.
Qed.

Lemma pack_B_ok (x : Z) : 0 <= x <= 255 -> pack_B x = Ok [byte_of_Z x].
Proof.
  intros R. unfold pack_B.
  destruct (Z.leb_spec 0 x); [|lia]. destruct (Z.leb_spec x 255); [|lia].
  reflexivity.
Qed.

Lemma pack_B_is_ok (x : Z) : is_ok (pack_B x) = true <-> 0 <= x <= 255.
Proof.
  unfold pack_B.
  destruct (Z.leb_spec 0 x); destruct (Z.leb_spec x 255); simpl;
    split; try lia; try discriminate; reflexivity.
Qed.

Lemma pack_H_ok (x : Z) : 0 <= x <= 65535 -> pack_H x = Ok (code_bytes x).
Proof.
  intros R. unfold pack_H.
  destruct (Z.leb_spec 0 x); [|lia]. destruct (Z.leb_spec x 65535); [|lia].
  reflexivity.
Qed.

Lemma unpack_H_code_bytes (x : Z) (b0 b1 : byte) :
  0 <= x <= 65535 -> code_bytes x = [b0; b1] -> unpack_H [b0; b1] = Ok x.
Proof.
  intros R E. unfold code_bytes in E. inversion E; subst b0 b1; clear E.
  unfold unpack_H.
  assert (0 <= x mod 256 < 256) by (apply Z.mod_pos_bound; lia).
  assert (0 <= x / 256 < 256)
    by (split; [apply Z.div_pos; lia | apply Z.div_lt_upper_bound; lia]).
  rewrite !Z_of_byte_of_Z by lia. f_equal.
  pose proof (Z.div_mod x 256). lia.
Qed.

Lemma two_byte_values_spec (l : list Z) :
  two_byte_values l = true <-> forall x, In x l -> 0 <= x <= 65535.
Proof.
  unfold two_byte_values. rewrite forallb_forall.
  split; intros A x I; specialize (A x I).
  - apply andb_true_iff in A. destruct A as [A B].
    apply Z.leb_le in A. apply Z.leb_le in B. lia.
  - apply andb_true_iff. split; apply Z.leb_le; lia.
Qed.

Lemma two_byte_symbols_spec (table : dict str Z) :
  two_byte_symbols table = true <->
  forall w k, In (w, k) table -> exists c, w = [c] /\ 0 <= c <= 65535.
Proof.
  unfold two_byte_symbols. rewrite forallb_forall. split.
  - intros A w k I. specialize (A _ I). simpl in A.
    destruct w as [|c [|c' w]]; try discriminate.
    apply andb_true_iff in A. destruct A as [A B].
    apply Z.leb_le in A. apply Z.leb_le in B. exists c. split; [reflexivity | lia].
  - intros A [w k] I. simpl. destruct (A w k I) as (c & -> & R).
    apply andb_true_iff. split; apply Z.leb_le; lia.
Qed.

Lemma dense_codes_spec (table : dict str Z) :
  dense_codes table = true ->
  (forall v, In v (dict_values table) -> 0 <= v < Z.of_nat (length table))
  /\ (forall i, (i < length table)%nat -> In (Z.of_nat i) (dict_values table)).
Proof.
  unfold dense_codes. rewrite andb_true_iff, !forallb_forall.
  intros [A B]. split.
  - intros v I. specialize (A v I). apply andb_true_iff in A.
    destruct A as [A1 A2]. apply Z.leb_le in A1. apply Z.ltb_lt in A2. lia.
  - intros i L. apply mem_Z_In. apply B. apply in_seq. lia.
Qed.

Lemma max_code_dense (table : dict str Z) :
  table <> [] -> keys_unique table = true -> dense_codes table = true ->
  max_code table = Ok (Z.of_nat (length table) - 1).
Proof.
  intros NE U D. apply dense_codes_spec in D. destruct D as [Rng All].
  destruct (max_code_spec table NE U) as (m & E & I & B).
  rewrite E. f_equal.
  assert (L : (0 < length table)%nat) by (destruct table; simpl; [congruence | lia]).
  specialize (Rng m I).
  assert (Il : In (Z.of_nat (length table - 1)) (dict_values table))
    by (apply All; lia).
  specialize (B _ Il). lia.
Qed.

(** *** Writing *)

Lemma write_entries_ok (d : dict str Z) : forall file,
  (forall w k, In (w, k) d ->
     exists c, w = [c] /\ 0 <= c <= 65535 /\ 0 <= k <= 255) ->
  for_each write_entry d file = Ok (file ++ concat (map entry_bytes d)).
Proof.
  induction d as [|[w k] d IH]; intros file V; simpl.
  - rewrite app_nil_r; reflexivity.
  - destruct (V w k (or_introl eq_refl)) as (c & -> & Rc & Rk).
    unfold write_entry at 1. simpl. rewrite (pack_H_ok c Rc). cbn [bind].
    rewrite (pack_B_ok k Rk). cbn [bind].
    rewrite IH by (intros w' k' I; apply V; simpl; auto).
    unfold entry_bytes at 2, code_bytes. simpl.
    rewrite <- !app_assoc. reflexivity.
Qed.

Lemma write_codes_ok (codes : list Z) : forall file,
  (forall x, In x codes -> 0 <= x <= 65535) ->
  for_each write_code codes file = Ok (file ++ concat (map code_bytes codes)).
Proof.
  induction codes as [|x codes IH]; intros file V; simpl.
  - rewrite app_nil_r; reflexivity.
  - unfold write_code at 1. rewrite (pack_H_ok x (V x (or_introl eq_refl))).
    cbn [bind]. rewrite IH by (intros y I; apply V; simpl; auto).
    rewrite <- app_assoc. reflexivity.
Qed.

(** *** Reading *)

Lemma read_entries_step (n : nat) (acc : dict str Z) (b0 b1 b2 : byte)
  (file : list byte) :
  read_entries (S n) acc (b0 :: b1 :: b2 :: file) =
  (cp <- unpack_H [b0; b1] ;;
   char <- chr cp ;;
   code <- unpack_B [b2] ;;
   read_entries n (dict_setitem char code acc) file).
Proof. reflexivity. Qed.

Lemma chr_ok (c : Z) : 0 <= c <= 65535 -> chr c = Ok [c].
Proof.
  intros R. unfold chr.
  destruct (Z.leb_spec 0 c); [|lia]. destruct (Z.ltb_spec c 1114112); [|lia].
  reflexivity.
Qed.

Lemma read_entries_ok (d : dict str Z) : forall acc rest,
  NoDup (dict_keys (acc ++ d)) ->
  (forall w k, In (w, k) d ->
     exists c, w = [c] /\ 0 <= c <= 65535 /\ 0 <= k <= 255) ->
  read_entries (length d) acc (concat (map entry_bytes d) ++ rest)
  = Ok (acc ++ d, rest).
Proof.
  induction d as [|[w k] d IH]; intros acc rest N V.
  - simpl. rewrite app_nil_r; reflexivity.
  - destruct (V w k (or_introl eq_refl)) as (c & -> & Rc & Rk).
    change (concat (map entry_bytes (([c], k) :: d)) ++ rest)
      with (byte_of_Z (c mod 256) :: byte_of_Z (c / 256) :: byte_of_Z k
              :: (concat (map entry_bytes d) ++ rest)).
    change (length (([c], k) :: d)) with (S (length d)).
    rewrite read_entries_step.
    rewrite (unpack_H_code_bytes c _ _ Rc eq_refl). cbn [bind].
    rewrite (chr_ok c Rc). cbn [bind]. unfold unpack_B. cbn [bind].
    rewrite (Z_of_byte_of_Z k Rk).
    assert (Fresh : dict_get [c] acc = None).
    { apply dict_get_None_keys. unfold dict_keys in N |- *.
      rewrite map_app in N. simpl in N. apply NoDup_remove_2 in N.
      intros I. apply N. apply in_or_app; auto. }
    rewrite (dict_setitem_fresh [c] k acc Fresh).
    replace (acc ++ ([c], k) :: d) with ((acc ++ [([c], k)]) ++ d)
      by (rewrite <- app_assoc; reflexivity).
    apply IH.
    + rewrite <- app_assoc. exact N.
    + intros w' k' I. apply V. simpl; auto.
Qed.

Lemma read_codes_step (b0 b1 : byte) (file : list byte) (acc : list Z) :
  read_codes (b0 :: b1 :: file) acc =
  (data <- unpack_H [b0; b1] ;; read_codes file (acc ++ [data])).
Proof. reflexivity. Qed.

Lemma read_codes_ok (codes : list Z) : forall acc,
  (forall x, In x codes -> 0 <= x <= 65535) ->
  read_codes (concat (map code_bytes codes)) acc = Ok (acc ++ codes).
Proof.
  induction codes as [|x codes IH]; intros acc V.
  - simpl. rewrite app_nil_r; reflexivity.
  - change (concat (map code_bytes (x :: codes)))
      with (byte_of_Z (x mod 256) :: byte_of_Z (x / 256)
              :: concat (map code_bytes codes)).
    rewrite read_codes_step.
    rewrite (unpack_H_code_bytes x _ _ (V x (or_introl eq_refl)) eq_refl).
    cbn [bind]. rewrite IH by (intros y I; apply V; simpl; auto).
    rewrite <- app_assoc. reflexivity.
Qed.

(** *** Writing and reading back *)

Lemma write_lzw_ok (codes : list Z) (table : dict str Z) (m : Z) :
  max_code table = Ok m -> 0 <= m <= 255 ->
  (forall w k, In (w, k) table ->
     exists c, w = [c] /\ 0 <= c <= 65535 /\ 0 <= k <= 255) ->
  (forall x, In x codes -> 0 <= x <= 65535) ->
  write_lzw codes table
  = Ok (([byte_of_Z m] ++ concat (map entry_bytes table))
          ++ concat (map code_bytes codes)).
Proof.
  intros M Rm Ve Vc. unfold write_lzw. rewrite M. cbn [bind].
  rewrite (pack_B_ok m Rm). cbn [bind].
  rewrite (write_entries_ok table _ Ve). cbn [bind].
  apply write_codes_ok; exact Vc.
Qed.

Lemma write_lzw_header (codes : list Z) (table : dict str Z) (m : Z) (file : list byte) :
  max_code table = Ok m -> write_lzw codes table = Ok file -> 0 <= m <= 255.
Proof.
  intros M. unfold write_lzw. rewrite M. cbn [bind]. intros E.
  apply pack_B_is_ok. destruct (pack_B m); [reflexivity | discriminate E].
Qed.

Lemma read_lzw_ok (codes : list Z) (table : dict str Z) :
  (0 < length table <= 256)%nat ->
  NoDup (dict_keys table) ->
  (forall w k, In (w, k) table ->
     exists c, w = [c] /\ 0 <= c <= 65535 /\ 0 <= k <= 255) ->
  (forall x, In x codes -> 0 <= x <= 65535) ->
  read_lzw (([byte_of_Z (Z.of_nat (length table) - 1)]
               ++ concat (map entry_bytes table))
              ++ concat (map code_bytes codes))
  = Ok (codes, table).
Proof.
  intros L N Ve Vc. unfold read_lzw, file_read.
  rewrite <- app_assoc. cbn [app firstn skipn]. unfold unpack_B. cbn [bind].
  rewrite Z_of_byte_of_Z by lia.
  replace (Z.to_nat (Z.of_nat (length table) - 1 + 1)) with (length table) by lia.
  rewrite (read_entries_ok table [] _ N Ve). cbn [bind snd fst].
  rewrite (read_codes_ok codes [] Vc). reflexivity.
Qed.

Lemma dense_entries_valid (table : dict str Z) :
  (length table <= 256)%nat ->
  two_byte_symbols table = true -> dense_codes table = true ->
  forall w k, In (w, k) table ->
    exists c, w = [c] /\ 0 <= c <= 65535 /\ 0 <= k <= 255.
Proof.
  intros L S D w k I.
  destruct (proj1 (two_byte_symbols_spec table) S w k I) as (c & -> & Rc).
  apply dense_codes_spec in D. destruct D as [Rng _].
  specialize (Rng k (in_map snd _ _ I)). exists c. repeat split; lia.
Qed.

(** C4, as the claim states it, fails: the layout stores the highest code and
    reads back one entry more, so it has no form for the empty table, whose
    serialization raises; and a character outside the two-byte range does not
    fit the entry's symbol field. *)
Lemma binary_roundtrip_counterexamples :
  binary_roundtrip [] [] = Raise ValueError
  /\ (dense_codes [([128512], 0)] = true
      /\ binary_roundtrip [0] [([128512], 0)] = Raise StructError).
Proof. repeat split; reflexivity. Qed.

(** C4, amended.  A non-empty table of at most 255 entries, whose keys are
    characters that fit two bytes and whose codes are dense from 0, and any
    sequence of two-byte codes, are read back from the bytes written for them
    exactly as they were, the table in the same order. *)
Theorem binary_roundtrip_ok (compressed_data : list Z) (table : dict str Z) :
  table <> [] ->
  (length table <= 255)%nat ->
  keys_unique table = true ->
  two_byte_symbols table = true ->
  dense_codes table = true ->
  two_byte_values compressed_data = true ->
  binary_roundtrip compressed_data table = Ok (compressed_data, table).
Proof.
  intros NE L U S D Vc.
  assert (L0 : (0 < length table)%nat)
    by (destruct table; simpl; [congruence | lia]).
  pose proof (dense_entries_valid table ltac:(lia) S D) as Ve.
  pose proof (proj1 (two_byte_values_spec _) Vc) as Vc'.
  unfold binary_roundtrip.
  rewrite (write_lzw_ok compressed_data table _ (max_code_dense table NE U D)
             ltac:(lia) Ve Vc').
  cbn [bind]. apply read_lzw_ok; [lia | | exact Ve | exact Vc'].
  apply keys_unique_NoDup; exact U.
Qed.

Lemma binary_roundtrip_ok_witness :
  binary_roundtrip [300; 65535; 0] [([98], 1); ([97], 0)]
  = Ok ([300; 65535; 0], [([98], 1); ([97], 0)]).
Proof.
  apply (binary_roundtrip_ok [300; 65535; 0] [([98], 1); ([97], 0)]).
  - discriminate.
  - simpl; lia.
  - reflexivity.
  - reflexivity.
  - reflexivity.
  - reflexivity.
Defined.

(** *** What [compress_to_file] can write *)

(** C9, as the claim states it, fails both ways: a text with 256 distinct
    characters is written, because the one-byte field holds the highest code,
    255, not the count; and a text with a single character outside the
    two-byte range is not. *)
Lemma table_size_field_counterexamples :
  (list_of_set (map Z.of_nat (seq 0 256)) (map Z.of_nat (seq 0 256)) = true
   /\ length (map Z.of_nat (seq 0 256)) = 256%nat
   /\ is_ok (compress_to_file (map Z.of_nat (seq 0 256))
               (map Z.of_nat (seq 0 256))) = true)
  /\ (list_of_set [128512] [128512] = true
      /\ compress_to_file [128512] [128512] = Raise StructError).
Proof. repeat split; vm_compute; reflexivity. Qed.

(** C9, amended.  For a non-empty text whose characters fit two bytes,
    [compress_to_file] writes its file exactly when the text has at most 256
    distinct characters; with more, packing the highest code into the one-byte
    field raises. *)
Theorem compress_to_file_ok_iff (u : list Z) (data : str) :
  data <> [] ->
  list_of_set u data = true ->
  two_byte_values data = true ->
  (exists file, compress_to_file u data = Ok file) <-> (length u <= 256)%nat.
Proof.
  intros NE L V.
  destruct (run_inv u data NE L) as (l & E & Inv).
  pose proof (inv_initial u l Inv) as It.
  apply list_of_set_spec in L. destruct L as [N Iff].
  assert (NEu : u <> []).
  { destruct data as [|c data]; [congruence|]. intros ->.
    apply (Iff c). simpl; auto. }
  assert (L0 : (0 < length u)%nat) by (destruct u; simpl; [congruence | lia]).
  pose proof (max_code_enum u NEu N) as M.
  unfold compress_to_file. rewrite (compress_of_run u data l E). cbn [bind fst snd].
  rewrite It. split.
  - intros [file W]. pose proof (write_lzw_header _ _ _ _ M W). lia.
  - intros Le. eexists. apply (write_lzw_ok _ _ _ M); [lia | |].
    + intros w k I. apply In_dict_get in I;
        [|apply enum_from_keys_NoDup; exact N].
      apply enum_from_get in I. destruct I as (c & -> & Ic & Rk).
      exists c. split; [reflexivity|]. split; [|simpl in Rk; lia].
      apply (proj1 (two_byte_values_spec data) V). apply Iff; exact Ic.
    + intros x I. pose proof (inv_emitted u l Inv x I) as Rx.
      pose proof (inv_size u l Inv) as Sz. unfold max_table_size in Sz.
      change (2 ^ 16) with 65536 in Sz. lia.
Qed.

Lemma compress_to_file_ok_iff_witness :
  (exists file, compress_to_file [84;79;66;69;82;78] TOBE = Ok file)
  <-> (length [84;79;66;69;82;78] <= 256)%nat.
Proof.
  apply (compress_to_file_ok_iff [84;79;66;69;82;78] TOBE).
  - discriminate.
  - reflexivity.
  - reflexivity.
Defined.

(** * Further properties *)

(** ** compress: the working table, and how many codes are emitted *)

Lemma NoDup_snoc {A} (l : list A) (x : A) :
  NoDup l -> ~ In x l -> NoDup (l ++ [x]).
Proof.
  intros N. induction N as [|a l NI N IH]; intros NX; simpl.
  - constructor; [intros [] | constructor].
  - constructor.
    + intros I. apply in_app_or in I. destruct I as [I|[I|[]]]; [auto|].
      apply NX. left. symmetry. exact I.
    + apply IH. intros I. apply NX. right. exact I.
Qed.

Lemma enc_shape_enter (u : list Z) (l : Compress.locals) :
  u <> [] -> NoDup u -> Compress.enter u = Ok l -> enc_shape u l.
Proof.
  intros NE N E. rewrite (enter_enum u NE N) in E. inversion E; subst l; clear E.
  constructor; simpl.
  - rewrite enum_from_length. reflexivity.
  - rewrite enum_from_values, enum_from_length. reflexivity.
  - apply enum_from_keys_NoDup; exact N.
  - exists []. rewrite app_nil_r. reflexivity.
Qed.

Lemma loop_body_shape (u : list Z) (char : Z) (l l' : Compress.locals) :
  enc_shape u l -> Compress.loop_body char l = Ok l' -> enc_shape u l'.
Proof.
  intros [Sz Vs Ks [added Gr]]. unfold Compress.loop_body.
  destruct (dict_contains (Compress.prefix l ++ [char]) (Compress.table l)) eqn:C.
  - intros [= <-]. constructor; simpl; eauto.
  - destruct (dict_getitem _ _) as [code|e]; cbn [bind]; [|discriminate].
    destruct (negb _).
    + intros [= <-]. apply dict_contains_false in C.
      pose proof (dict_setitem_fresh _ (Compress.table_size l) _ C) as F.
      constructor; simpl; rewrite F.
      * rewrite length_app. simpl. lia.
      * unfold dict_values in *. rewrite map_app, length_app. simpl.
        rewrite Nat.add_1_r, seq_S, map_app, <- Vs, Sz. reflexivity.
      * unfold dict_keys in *. rewrite map_app. simpl.
        apply NoDup_snoc; [exact Ks|].
        apply dict_get_None_keys in C. exact C.
      * exists (added ++ [(Compress.prefix l ++ [char], Compress.table_size l)]).
        rewrite Gr, <- app_assoc. reflexivity.
    + intros [= <-]. constructor; simpl; eauto.
Qed.

Lemma for_each_loop_body_shape (u : list Z) (s : str) : forall l l',
  enc_shape u l -> for_each Compress.loop_body s l = Ok l' -> enc_shape u l'.
Proof.
  induction s as [|c s IH]; intros l l' Sh; simpl.
  - intros [= <-]. exact Sh.
  - intros E. apply bind_Ok_inv in E. destruct E as (l1 & E1 & E2).
    apply (IH l1 l'); [|exact E2]. apply (loop_body_shape u c l l1 Sh E1).
Qed.

Lemma flush_table (l l' : Compress.locals) :
  Compress.flush l = Ok l' ->
  Compress.table l' = Compress.table l
  /\ Compress.table_size l' = Compress.table_size l
  /\ length (Compress.compressed_data l')
     = (length (Compress.compressed_data l) + pending l)%nat.
Proof.
  unfold Compress.flush, pending.
  destruct (str_truthy (Compress.prefix l)).
  - intros E. apply bind_Ok_inv in E. destruct E as (code & _ & E).
    inversion E; subst l'; clear E. simpl. rewrite length_app. simpl. auto.
  - intros [= <-]. repeat split. lia.
Qed.

(** X4.  On a non-empty input, when [compress] reaches its return the working
    table still starts with the entries of the initial table, holds no key
    twice, numbers its entries 0, 1, 2, ... in the order they were added,
    has as many entries as the counter says, and has at most
    [max_table_size] of them unless the initial table alone was larger. *)
Theorem compress_working_table (u : list Z) (s : str) :
  s <> [] -> list_of_set u s = true ->
  exists l, Compress.run u s = Ok l
    /\ (exists added, Compress.table l = Compress.initial_table l ++ added)
    /\ NoDup (dict_keys (Compress.table l))
    /\ dict_values (Compress.table l)
       = map Z.of_nat (seq 0 (length (Compress.table l)))
    /\ Compress.table_size l = Z.of_nat (length (Compress.table l))
    /\ Z.of_nat (length (Compress.table l))
       <= Z.max (Z.of_nat (length u)) max_table_size.
Proof.
  intros NE L. destruct (run_inv u s NE L) as (l & E & Inv).
  exists l. split; [exact E|].
  apply list_of_set_spec in L. destruct L as [N Iff].
  assert (NEu : u <> []).
  { destruct s as [|c s]; [congruence|]. intros ->. apply (Iff c). simpl; auto. }
  unfold Compress.run in E.
  apply bind_Ok_inv in E. destruct E as (l0 & E0 & E).
  apply bind_Ok_inv in E. destruct E as (l1 & E1 & E2).
  pose proof (enc_shape_enter u l0 NEu N E0) as Sh0.
  pose proof (for_each_loop_body_shape u s l0 l1 Sh0 E1) as [Sz Vs Ks Gr].
  destruct (flush_table l1 l E2) as (T & S & _).
  rewrite (inv_initial u l Inv), T.
  split; [exact Gr|]. split; [exact Ks|]. split; [exact Vs|].
  split; [rewrite S; exact Sz|].
  rewrite <- Sz, <- S. apply (inv_size u l Inv).
Qed.

Lemma compress_working_table_witness :
  exists l, Compress.run [84;79;66;69;82;78] TOBE = Ok l
    /\ (exists added, Compress.table l = Compress.initial_table l ++ added)
    /\ NoDup (dict_keys (Compress.table l))
    /\ dict_values (Compress.table l)
       = map Z.of_nat (seq 0 (length (Compress.table l)))
    /\ Compress.table_size l = Z.of_nat (length (Compress.table l))
    /\ Z.of_nat (length (Compress.table l))
       <= Z.max (Z.of_nat (length [84;79;66;69;82;78])) max_table_size.
Proof.
  apply (compress_working_table [84;79;66;69;82;78] TOBE).
  - discriminate.
  - reflexivity.
Defined.

Lemma loop_body_count (u : list Z) (char : Z) (l l' : Compress.locals) :
  enc_inv u l -> In char u -> Compress.loop_body char l = Ok l' ->
  (length (Compress.compressed_data l') + pending l'
   <= length (Compress.compressed_data l) + pending l + 1)%nat.
Proof.
  intros Inv Iu. unfold Compress.loop_body, pending.
  destruct (dict_contains (Compress.prefix l ++ [char]) (Compress.table l)) eqn:C.
  - intros [= <-]. simpl.
    destruct (Compress.prefix l); simpl; lia.
  - destruct (Compress.prefix l) as [|c p] eqn:Ep.
    { simpl in C. rewrite (inv_singles u l Inv char Iu) in C. discriminate. }
    destruct (dict_getitem _ _) as [code|e]; cbn [bind]; [|discriminate].
    destruct (negb _); intros [= <-]; simpl; rewrite length_app; simpl; lia.
Qed.

Lemma for_each_loop_body_count (u : list Z) (s : str) : forall l l',
  enc_inv u l -> (forall c, In c s -> In c u) ->
  for_each Compress.loop_body s l = Ok l' ->
  (length (Compress.compressed_data l') + pending l'
   <= length (Compress.compressed_data l) + pending l + length s)%nat.
Proof.
  induction s as [|c s IH]; intros l l' Inv Sub; simpl.
  - intros [= <-]. lia.
  - intros E. apply bind_Ok_inv in E. destruct E as (l1 & E1 & E2).
    assert (Ic : In c u) by (apply Sub; simpl; auto).
    pose proof (loop_body_count u c l l1 Inv Ic E1) as C1.
    destruct (loop_body_inv u c l Inv Ic) as (l1' & E1' & Inv1 & _).
    rewrite E1 in E1'. inversion E1'; subst l1'; clear E1'.
    pose proof (IH l1 l' Inv1 (fun c' I => Sub c' (or_intror I)) E2). lia.
Qed.

(** X5.  On a non-empty input [compress] emits at least one code and at most
    one code per character of the input. *)
Theorem compress_code_count (u : list Z) (s : str) :
  s <> [] -> list_of_set u s = true ->
  exists codes t, compress u s = Ok (codes, t)
                  /\ (1 <= length codes <= length s)%nat.
Proof.
  intros NE L. destruct (run_inv u s NE L) as (l & E & _).
  exists (Compress.compressed_data l), (Compress.initial_table l).
  split; [apply compress_of_run; exact E|].
  apply list_of_set_spec in L. destruct L as [N Iff].
  assert (NEu : u <> []).
  { destruct s as [|c s]; [congruence|]. intros ->. apply (Iff c). simpl; auto. }
  unfold Compress.run in E.
  apply bind_Ok_inv in E. destruct E as (l0 & E0 & E).
  apply bind_Ok_inv in E. destruct E as (l1 & E1 & E2).
  pose proof (enc_inv_enter u l0 NEu N E0) as Inv0.
  pose proof (for_each_loop_body_count u s l0 l1 Inv0 (fun c => proj2 (Iff c)) E1)
    as Cnt.
  destruct (for_each_loop_body_inv u s l0 Inv0 (fun c => proj2 (Iff c)))
    as (l1' & E1' & _ & P1).
  rewrite E1 in E1'. inversion E1'; subst l1'; clear E1'.
  specialize (P1 NE).
  destruct (flush_table l1 l E2) as (_ & _ & Len).
  rewrite (enter_enum u NEu N) in E0. inversion E0; subst l0; clear E0.
  unfold pending in *. simpl in Cnt.
  destruct (Compress.prefix l1); [congruence|]. simpl in *. lia.
Qed.

Lemma compress_code_count_witness :
  exists codes t, compress [84;79;66;69;82;78] TOBE = Ok (codes, t)
                  /\ (1 <= length codes <= length TOBE)%nat.
Proof.
  apply (compress_code_count [84;79;66;69;82;78] TOBE).
  - discriminate.
  - reflexivity.
Defined.

(** X3.  Every code [compress] emits is a code of its working table: at
    least 0 and below [max_table_size], or below the number of distinct
    characters if that is larger.  With at most 65536 distinct characters
    every code fits two bytes. *)
Theorem compress_codes_in_range (u : list Z) (s : str) :
  s <> [] -> list_of_set u s = true ->
  exists codes t, compress u s = Ok (codes, t)
    /\ (forall k, In k codes ->
          0 <= k < Z.max (Z.of_nat (length u)) max_table_size)
    /\ (Z.of_nat (length u) <= max_table_size ->
        two_byte_values codes = true).
Proof.
  intros NE L. destruct (run_inv u s NE L) as (l & E & Inv).
  exists (Compress.compressed_data l), (Compress.initial_table l).
  split; [apply compress_of_run; exact E|].
  assert (R : forall k, In k (Compress.compressed_data l) ->
                0 <= k < Z.max (Z.of_nat (length u)) max_table_size).
  { intros k I. pose proof (inv_emitted u l Inv k I).
    pose proof (inv_size u l Inv). lia. }
  split; [exact R|]. intros Le. apply two_byte_values_spec.
  intros k I. specialize (R k I). unfold max_table_size in R, Le.
  change (2 ^ 16) with 65536 in R, Le. lia.
Qed.

Lemma compress_codes_in_range_witness :
  exists codes t, compress [84;79;66;69;82;78] TOBE = Ok (codes, t)
    /\ (forall k, In k codes ->
          0 <= k < Z.max (Z.of_nat (length [84;79;66;69;82;78])) max_table_size)
    /\ (Z.of_nat (length [84;79;66;69;82;78]) <= max_table_size ->
        two_byte_values codes = true).
Proof.
  apply (compress_codes_in_range [84;79;66;69;82;78] TOBE).
  - discriminate.
  - reflexivity.
Defined.

(** ** uncompress: side effect, exceptions, table growth, output *)

(** X6.  Whatever the outcome of the call, [uncompress] never changes the
    caller's table, and the caller's list has lost its first element as soon
    as line 165 has passed, also when the call then raises; the list is
    untouched only when [max] fails on an empty table. *)
Theorem uncompress_effect_always (cd : list Z) (table : dict str Z) :
  table_obj (snd (uncompress cd table)) = table
  /\ compressed_data_obj (snd (uncompress cd table))
     = (if is_ok (max_code table) then tl cd else cd).
Proof.
  rewrite uncompress_unfold, run_unfold.
  destruct (max_code table) as [m|e]; simpl; [|auto].
  destruct cd as [|first rest]; simpl; [auto|].
  destruct (dict_getitem first (dict_invert table)) as [w|e]; simpl; [|auto].
  destruct (for_each _ _ _); simpl; auto.
Qed.

Example uncompress_raises_after_pop :
  uncompress [5; 0] [([97], 0)] = (Raise KeyError, objects [0] [([97], 0)]).
Proof. reflexivity. Qed.

(** X7.  Which exception: on a non-empty table of characters and a non-empty
    list of codes, an unknown first code raises KeyError (line 181), a later
    code that is neither known nor the counter raises ValueError (line 202),
    and nothing else is ever raised. *)
Theorem uncompress_exception_kinds
  (table : dict str Z) (m first : Z) (rest : list Z) :
  symbol_table table = true ->
  max_code table = Ok m ->
  (fst (uncompress (first :: rest) table) = Raise KeyError
   <-> ~ In first (dict_values table))
  /\ (fst (uncompress (first :: rest) table) = Raise ValueError
      <-> In first (dict_values table)
          /\ exists j c, nth_error rest j = Some c
                         /\ ~ known_code table m j c /\ c <> next_code m j)
  /\ (forall e, fst (uncompress (first :: rest) table) = Raise e ->
                e = KeyError \/ e = ValueError).
Proof.
  intros ST M. rewrite uncompress_unfold, run_unfold, M.
  unfold known_code, next_code.
  destruct (dict_getitem first (dict_invert table)) as [w|e] eqn:G.
  - pose proof (first_locals_nonempty table m first w ST G) as NE.
    assert (I1 : In first (dict_values table)).
    { apply dict_invert_contains. apply dict_contains_true.
      unfold dict_getitem in G.
      destruct (dict_get first (dict_invert table)); [eauto | discriminate]. }
    destruct (dec_loop_cases rest _ NE)
      as [(l' & E' & _ & _ & A)|(E' & j & c & Nj & Cj & Rj)];
      rewrite E'; simpl in *.
    + split; [split; [discriminate | contradiction]|].
      split; [|discriminate].
      split; [discriminate|]. intros (_ & j & c & Nj & NK & NN). exfalso.
      destruct (A j c Nj) as [Q|Q].
      * apply NK. left. apply dict_invert_contains; exact Q.
      * destruct (Z.eq_dec c (m + 1 + Z.of_nat j)); [contradiction|].
        apply NK. right. lia.
    + split; [split; [discriminate | contradiction]|].
      split; [|intros e [= <-]; auto].
      split; [|reflexivity]. intros _. split; [exact I1|].
      exists j, c. split; [exact Nj|]. split; [|lia].
      intros [Q|Q]; [|lia]. apply dict_invert_contains in Q. congruence.
  - assert (I1 : ~ In first (dict_values table)).
    { intros I. apply dict_invert_contains in I. apply dict_contains_true in I.
      destruct I as [w Q]. unfold dict_getitem in G. rewrite Q in G. discriminate. }
    assert (e = KeyError).
    { unfold dict_getitem in G.
      destruct (dict_get first (dict_invert table)); congruence. }
    subst e. simpl.
    split; [split; [intros _; exact I1 | reflexivity]|].
    split; [|intros e [= <-]; auto].
    split; [discriminate | intros [Q _]; contradiction].
Qed.

Lemma uncompress_exception_kinds_witness :
  (fst (uncompress (0 :: [3]) [([97], 0)]) = Raise KeyError
   <-> ~ In 0 (dict_values [([97], 0)]))
  /\ (fst (uncompress (0 :: [3]) [([97], 0)]) = Raise ValueError
      <-> In 0 (dict_values [([97], 0)])
          /\ exists j c, nth_error [3] j = Some c
                         /\ ~ known_code [([97], 0)] 0 j c /\ c <> next_code 0 j)
  /\ (forall e, fst (uncompress (0 :: [3]) [([97], 0)]) = Raise e ->
                e = KeyError \/ e = ValueError).
Proof.
  apply (uncompress_exception_kinds [([97], 0)] 0 0 [3]).
  - reflexivity.
  - reflexivity.
Defined.

(** X8.  The decoder's table grows by one entry per code after the first,
    with no ceiling: when [uncompress] reaches its return, the counter is the
    largest initial code plus the number of codes consumed, and the keys of
    the working table are the initial codes and every integer from the
    initial counter up to the final one. *)
Theorem uncompress_table_growth
  (table : dict str Z) (m first : Z) (rest : list Z)
  (l : Uncompress.locals) (h : caller_objects) :
  symbol_table table = true ->
  max_code table = Ok m ->
  Uncompress.run (objects (first :: rest) table) = (Ok l, h) ->
  Uncompress.table_size l = m + 1 + Z.of_nat (length rest)
  /\ forall c, dict_contains c (Uncompress.table l) = true
               <-> In c (dict_values table)
                   \/ m + 1 <= c < m + 1 + Z.of_nat (length rest).
Proof.
  intros ST M. rewrite run_unfold, M.
  destruct (dict_getitem first (dict_invert table)) as [w|e] eqn:G;
    [|discriminate].
  intros E. inversion E as [[E' Eh]]; clear E.
  exact (working_table_at table m first w rest l ST G E').
Qed.

Lemma uncompress_table_growth_witness :
  Uncompress.table_size
    {| Uncompress.uncompressed_data := [97; 97; 97; 97; 97; 97];
       Uncompress.table := [(0, [97]); (1, [97; 97]); (2, [97; 97; 97])];
       Uncompress.table_size := 3;
       Uncompress.previous := [97; 97; 97] |}
  = 0 + 1 + Z.of_nat (length [1; 2])
  /\ forall c,
       dict_contains c
         (Uncompress.table
            {| Uncompress.uncompressed_data := [97; 97; 97; 97; 97; 97];
               Uncompress.table := [(0, [97]); (1, [97; 97]); (2, [97; 97; 97])];
               Uncompress.table_size := 3;
               Uncompress.previous := [97; 97; 97] |}) = true
       <-> In c (dict_values [([97], 0)])
           \/ 0 + 1 <= c < 0 + 1 + Z.of_nat (length [1; 2]).
Proof.
  apply (uncompress_table_growth [([97], 0)] 0 0 [1; 2] _ (objects [1; 2] [([97], 0)])).
  - reflexivity.
  - reflexivity.
  - reflexivity.
Defined.

Lemma dec_step_inv (current : Z) (l l' : Uncompress.locals) :
  Uncompress.loop_body current l = Ok l' ->
  exists output c,
    str_first output = Ok c
    /\ (dict_get current (Uncompress.table l) = Some output
        \/ exists p0, str_first (Uncompress.previous l) = Ok p0
                      /\ output = Uncompress.previous l ++ [p0])
    /\ Uncompress.uncompressed_data l' = Uncompress.uncompressed_data l ++ output
    /\ Uncompress.table l'
       = dict_setitem (Uncompress.table_size l) (Uncompress.previous l ++ [c])
           (Uncompress.table l)
    /\ Uncompress.previous l' = output.
Proof.
  unfold Uncompress.loop_body. intros E.
  apply bind_Ok_inv in E. destruct E as (output & Eo & E).
  apply bind_Ok_inv in E. destruct E as (c & Ec & E).
  inversion E; subst l'; clear E. simpl.
  exists output, c. split; [exact Ec|]. split; [|auto].
  unfold dict_contains, dict_getitem in Eo.
  destruct (dict_get current (Uncompress.table l)) as [w|].
  - inversion Eo; subst; auto.
  - destruct (current =? Uncompress.table_size l); [|discriminate].
    apply bind_Ok_inv in Eo. destruct Eo as (p0 & Ep & Eo).
    inversion Eo; subst. right. eauto.
Qed.

Lemma str_first_In (w : str) (c : Z) : str_first w = Ok c -> In c w.
Proof. destruct w; simpl; [discriminate | intros [= ->]; auto]. Qed.

Section DecoderOutput.
Variable A : Z -> Prop.

Lemma dec_step_chars (current : Z) (l l' : Uncompress.locals) :
  dec_chars A l -> Uncompress.loop_body current l = Ok l' -> dec_chars A l'.
Proof.
  intros (Pv & Tb & Out) E.
  destruct (dec_step_inv current l l' E) as (output & c & Ec & Src & Eo & Et & Ep).
  assert (Oc : forall x, In x output -> A x).
  { destruct Src as [G|(p0 & E0 & ->)].
    - exact (Tb _ _ G).
    - intros x I. apply in_app_or in I. destruct I as [I|[<-|[]]]; auto.
      apply Pv. apply str_first_In; exact E0. }
  unfold dec_chars. rewrite Eo, Et, Ep. split; [exact Oc|]. split.
  - intros k w. rewrite dict_get_setitem.
    destruct (key_eqb (Uncompress.table_size l) k).
    + intros [= <-] x I. apply in_app_or in I. destruct I as [I|[<-|[]]]; auto.
      apply Oc. apply str_first_In; exact Ec.
    + apply Tb.
  - intros x I. apply in_app_or in I. destruct I; auto.
Qed.

Lemma dec_loop_chars (codes : list Z) : forall l l',
  dec_chars A l -> for_each Uncompress.loop_body codes l = Ok l' ->
  dec_chars A l'.
Proof.
  induction codes as [|c codes IH]; intros l l' D; simpl.
  - intros [= <-]; exact D.
  - intros E. apply bind_Ok_inv in E. destruct E as (l1 & E1 & E2).
    apply (IH l1 l'); [|exact E2]. apply (dec_step_chars c l l1 D E1).
Qed.

End DecoderOutput.

(** X9.  [uncompress] never invents a character: every character of the
    string it returns occurs in a key of the table it was given. *)
Theorem uncompress_output_chars
  (cd : list Z) (table : dict str Z) (out : str) (h : caller_objects) :
  uncompress cd table = (Ok out, h) ->
  forall c, In c out -> exists w k, In (w, k) table /\ In c w.
Proof.
  rewrite uncompress_unfold, run_unfold.
  destruct (max_code table) as [m|e]; [|discriminate].
  destruct cd as [|first rest]; [discriminate|].
  destruct (dict_getitem first (dict_invert table)) as [cur|e] eqn:G;
    [|discriminate].
  destruct (for_each _ _ _) as [l|e] eqn:E; [|discriminate].
  intros [= <- _].
  set (A := fun c => exists w k, In (w, k) table /\ In c w).
  assert (FromTable : forall k w, dict_get k (dict_invert table) = Some w ->
                                  forall c, In c w -> A c).
  { intros k w Q c I. apply dict_invert_get in Q. exists w, k. auto. }
  assert (D0 : dec_chars A (first_locals m table cur)).
  { unfold dict_getitem in G.
    destruct (dict_get first (dict_invert table)) as [w|] eqn:Q; [|discriminate].
    inversion G; subst w; clear G.
    unfold dec_chars; simpl. split; [|split]; eauto. }
  destruct (dec_loop_chars A rest _ l D0 E) as (_ & _ & Out). exact Out.
Qed.

Lemma uncompress_output_chars_witness :
  uncompress [0; 1; 2] [([97], 0)]
  = (Ok [97; 97; 97; 97; 97; 97], objects [1; 2] [([97], 0)])
  /\ forall c, In c [97; 97; 97; 97; 97; 97] ->
               exists w k, In (w, k) [([97], 0)] /\ In c w.
Proof.
  split; [reflexivity|].
  apply (uncompress_output_chars [0; 1; 2] [([97], 0)] _ (objects [1; 2] [([97], 0)])).
  reflexivity.
Defined.

Lemma dec_loop_length (codes : list Z) : forall l l',
  for_each Uncompress.loop_body codes l = Ok l' ->
  (length (Uncompress.uncompressed_data l) + length codes
   <= length (Uncompress.uncompressed_data l'))%nat.
Proof.
  induction codes as [|c codes IH]; intros l l'; simpl.
  - intros [= <-]. lia.
  - intros E. apply bind_Ok_inv in E. destruct E as (l1 & E1 & E2).
    destruct (dec_step_inv c l l1 E1) as (output & c0 & Ec & _ & Eo & _).
    specialize (IH l1 l' E2). rewrite Eo, length_app in IH.
    destruct output; [discriminate Ec|]. simpl in IH. lia.
Qed.

(** X10.  Decoding never shrinks: with a table of characters, the string
    [uncompress] returns has at least as many characters as there were
    codes. *)
Theorem uncompress_output_length
  (cd : list Z) (table : dict str Z) (out : str) (h : caller_objects) :
  symbol_table table = true ->
  uncompress cd table = (Ok out, h) ->
  (length cd <= length out)%nat.
Proof.
  intros ST. rewrite uncompress_unfold, run_unfold.
  destruct (max_code table) as [m|e]; [|discriminate].
  destruct cd as [|first rest]; [discriminate|].
  destruct (dict_getitem first (dict_invert table)) as [cur|e] eqn:G;
    [|discriminate].
  destruct (for_each _ _ _) as [l|e] eqn:E; [|discriminate].
  intros [= <- _].
  pose proof (first_locals_nonempty table m first cur ST G) as [P _].
  apply dec_loop_length in E. simpl in E, P.
  destruct cur; [congruence|]. simpl in *. lia.
Qed.

Lemma uncompress_output_length_witness :
  (length [0; 1; 2]%Z <= length [97; 97; 97; 97; 97; 97]%Z)%nat.
Proof.
  apply (uncompress_output_length [0; 1; 2] [([97], 0)] _ (objects [1; 2] [([97], 0)])).
  - reflexivity.
  - reflexivity.
Defined.

(** ** The file: from text to bytes and back *)

Lemma enum_from_entries_valid (u : list Z) (data : str) :
  NoDup u -> (forall c, In c u -> In c data) ->
  two_byte_values data = true -> (length u <= 256)%nat ->
  forall w k, In (w, k) (enum_from 0 u) ->
    exists c, w = [c] /\ 0 <= c <= 65535 /\ 0 <= k <= 255.
Proof.
  intros N Sub V Le w k I.
  apply In_dict_get in I; [|apply enum_from_keys_NoDup; exact N].
  apply enum_from_get in I. destruct I as (c & -> & Ic & Rk).
  exists c. split; [reflexivity|]. split; [|simpl in Rk; lia].
  apply (proj1 (two_byte_values_spec data) V). apply Sub; exact Ic.
Qed.

(** X2.  A non-empty text whose characters fit two bytes and that has at
    most 256 distinct characters is written by [compress_to_file] to a file
    from which [uncompress_from_file] decodes the same text and hands it to
    the output write: what [uncompress_from_file] does is what writing the
    original text to a text file does, the same bytes or, for a text the
    encoding refuses, the same exception. *)
Theorem file_roundtrip (write_text : text_writer) (u : list Z) (data : str) :
  data <> [] ->
  list_of_set u data = true ->
  two_byte_values data = true ->
  (length u <= 256)%nat ->
  exists file, compress_to_file u data = Ok file
               /\ uncompress_from_file write_text file = write_text data.
Proof.
  intros NE L V Le.
  destruct (run_then_uncompress u data NE L) as (l & E & It & D).
  destruct (run_inv u data NE L) as (l' & E' & Inv).
  rewrite E in E'. inversion E'; subst l'; clear E'.
  apply list_of_set_spec in L. destruct L as [N Iff].
  assert (NEu : u <> []).
  { destruct data as [|c data]; [congruence|]. intros ->.
    apply (Iff c). simpl; auto. }
  assert (L0 : (0 < length u)%nat) by (destruct u; simpl; [congruence | lia]).
  pose proof (enum_from_entries_valid u data N (fun c => proj1 (Iff c)) V Le) as Ve.
  assert (Vc : forall x, In x (Compress.compressed_data l) -> 0 <= x <= 65535).
  { intros x I. pose proof (inv_emitted u l Inv x I) as Rx.
    pose proof (inv_size u l Inv) as Sz. unfold max_table_size in Sz.
    change (2 ^ 16) with 65536 in Sz. lia. }
  unfold compress_to_file, uncompress_from_file.
  rewrite (compress_of_run u data l E). cbn [bind fst snd]. rewrite It.
  rewrite (write_lzw_ok _ _ _ (max_code_enum u NEu N) ltac:(lia) Ve Vc).
  eexists. split; [reflexivity|].
  rewrite <- (enum_from_length u 0) at 1.
  rewrite (read_lzw_ok (Compress.compressed_data l) (enum_from 0 u)); auto.
  - cbn [bind fst snd]. rewrite D. reflexivity.
  - rewrite enum_from_length. lia.
  - apply enum_from_keys_NoDup; exact N.
Qed.

Lemma file_roundtrip_witness :
  exists file, compress_to_file [84;79;66;69;82;78] TOBE = Ok file
               /\ uncompress_from_file write_text_utf8 file
                  = write_text_utf8 TOBE.
Proof.
  apply (file_roundtrip write_text_utf8 [84;79;66;69;82;78] TOBE).
  - discriminate.
  - reflexivity.
  - reflexivity.
  - simpl; lia.
Defined.

(** The output write can fail where everything before it succeeds: a file
    whose one entry is the surrogate U+D800 decodes to that character, which
    UTF-8 cannot encode; and a text of plain letters is written as its
    bytes. *)
Example uncompress_from_file_surrogate :
  read_lzw [x00; x00; xd8; x00; x00; x00] = Ok ([0], [([55296], 0)])
  /\ fst (uncompress [0] [([55296], 0)]) = Ok [55296]
  /\ uncompress_from_file write_text_utf8 [x00; x00; xd8; x00; x00; x00]
     = Raise UnicodeEncodeError.
Proof. repeat split; reflexivity. Qed.

Example write_text_utf8_TOBE :
  write_text_utf8 TOBE = Ok (map byte_of_Z TOBE).
Proof. reflexivity. Qed.

(** *** What can be written *)

Lemma pack_B_inv (x : Z) (b : list byte) :
  pack_B x = Ok b -> 0 <= x <= 255 /\ b = [byte_of_Z x].
Proof.
  unfold pack_B.
  destruct (Z.leb_spec 0 x); destruct (Z.leb_spec x 255); simpl;
    try discriminate. intros [= <-]. split; [lia | reflexivity].
Qed.

Lemma pack_H_inv (x : Z) (b : list byte) :
  pack_H x = Ok b -> 0 <= x <= 65535 /\ b = code_bytes x.
Proof.
  unfold pack_H.
  destruct (Z.leb_spec 0 x); destruct (Z.leb_spec x 65535); simpl;
    try discriminate. intros [= <-]. split; [lia | reflexivity].
Qed.

Lemma write_entry_inv (item : str * Z) (file file' : list byte) :
  write_entry item file = Ok file' ->
  (exists c, fst item = [c] /\ 0 <= c <= 65535 /\ 0 <= snd item <= 255)
  /\ length file' = (length file + 3)%nat.
Proof.
  unfold write_entry. intros E.
  apply bind_Ok_inv in E. destruct E as (cp & Eo & E).
  apply bind_Ok_inv in E. destruct E as (b1 & E1 & E).
  apply bind_Ok_inv in E. destruct E as (b2 & E2 & E).
  inversion E; subst file'; clear E.
  apply pack_H_inv in E1. destruct E1 as [Rc ->].
  apply pack_B_inv in E2. destruct E2 as [Rk ->].
  split.
  - unfold ord in Eo. destruct (fst item) as [|c [|c' w]]; try discriminate.
    inversion Eo; subst cp. exists c. auto.
  - rewrite !length_app. simpl. lia.
Qed.

Lemma write_entries_inv (d : dict str Z) : forall file file',
  for_each write_entry d file = Ok file' ->
  (forall w k, In (w, k) d ->
     exists c, w = [c] /\ 0 <= c <= 65535 /\ 0 <= k <= 255)
  /\ length file' = (length file + 3 * length d)%nat.
Proof.
  induction d as [|[w k] d IH]; intros file file'; simpl.
  - intros [= <-]. split; [intros w k [] | lia].
  - intros E. apply bind_Ok_inv in E. destruct E as (f1 & E1 & E2).
    apply write_entry_inv in E1. destruct E1 as [(c & Ew & Rc & Rk) L1].
    apply IH in E2. destruct E2 as [V L2]. simpl in Ew, Rk. split.
    + intros w' k' [Q|I]; [inversion Q; subst; eauto | auto].
    + lia.
Qed.

Lemma write_codes_inv (codes : list Z) : forall file file',
  for_each write_code codes file = Ok file' ->
  (forall x, In x codes -> 0 <= x <= 65535)
  /\ length file' = (length file + 2 * length codes)%nat.
Proof.
  induction codes as [|x codes IH]; intros file file'; simpl.
  - intros [= <-]. split; [intros x [] | lia].
  - intros E. apply bind_Ok_inv in E. destruct E as (f1 & E1 & E2).
    unfold write_code in E1. apply bind_Ok_inv in E1.
    destruct E1 as (b & Eb & E1). inversion E1; subst f1; clear E1.
    apply pack_H_inv in Eb. destruct Eb as [Rx ->].
    apply IH in E2. destruct E2 as [V L2]. split.
    + intros y [<-|I]; auto.
    + rewrite length_app in L2. simpl in L2. lia.
Qed.

(** X11.  The bytes written for a table and a code sequence are one byte,
    three bytes per entry of the table and two bytes per code. *)
Theorem write_lzw_length
  (compressed_data : list Z) (table : dict str Z) (file : list byte) :
  write_lzw compressed_data table = Ok file ->
  length file = (1 + 3 * length table + 2 * length compressed_data)%nat.
Proof.
  unfold write_lzw. intros E.
  apply bind_Ok_inv in E. destruct E as (m & _ & E).
  apply bind_Ok_inv in E. destruct E as (f0 & E0 & E).
  apply bind_Ok_inv in E. destruct E as (f1 & E1 & E2).
  apply pack_B_inv in E0. destruct E0 as [_ ->].
  apply write_entries_inv in E1. destruct E1 as [_ L1].
  apply write_codes_inv in E2. destruct E2 as [_ L2].
  simpl in L1. lia.
Qed.

Lemma write_lzw_length_witness :
  length [x01; x62; x00; x01; x61; x00; x00; x2c; x01; xff; xff]
  = (1 + 3 * length [([98], 1); ([97], 0)]%Z + 2 * length [300; 65535]%Z)%nat.
Proof.
  apply (write_lzw_length [300; 65535] [([98], 1); ([97], 0)]).
  reflexivity.
Defined.

(** X12.  For a table that is a dict, the file can be written exactly when
    the table is not empty, every key is one character whose code point fits
    two bytes, every code of the table fits one byte, and every compressed
    code fits two bytes. *)
Theorem write_lzw_ok_iff (compressed_data : list Z) (table : dict str Z) :
  keys_unique table = true ->
  (exists file, write_lzw compressed_data table = Ok file)
  <-> table <> []
      /\ (forall w k, In (w, k) table ->
            exists c, w = [c] /\ 0 <= c <= 65535 /\ 0 <= k <= 255)
      /\ (forall x, In x compressed_data -> 0 <= x <= 65535).
Proof.
  intros U. split.
  - intros [file E]. unfold write_lzw in E.
    apply bind_Ok_inv in E. destruct E as (m & Em & E).
    apply bind_Ok_inv in E. destruct E as (f0 & E0 & E).
    apply bind_Ok_inv in E. destruct E as (f1 & E1 & E2).
    apply write_entries_inv in E1. destruct E1 as [Ve _].
    apply write_codes_inv in E2. destruct E2 as [Vc _].
    split; [|auto]. intros ->. discriminate Em.
  - intros (NE & Ve & Vc).
    destruct (max_code_spec table NE U) as (m & Em & Im & _).
    apply in_map_iff in Im. destruct Im as ([w k] & <- & I).
    destruct (Ve w k I) as (c & _ & _ & Rk).
    eexists. apply (write_lzw_ok _ _ _ Em Rk Ve Vc).
Qed.

Lemma write_lzw_ok_iff_witness :
  (exists file, write_lzw [300; 65535] [([98], 1); ([97], 0)] = Ok file)
  <-> [([98], 1); ([97], 0)] <> []
      /\ (forall w k, In (w, k) [([98], 1); ([97], 0)] ->
            exists c, w = [c] /\ 0 <= c <= 65535 /\ 0 <= k <= 255)
      /\ (forall x, In x [300; 65535] -> 0 <= x <= 65535).
Proof.
  apply (write_lzw_ok_iff [300; 65535] [([98], 1); ([97], 0)]).
  reflexivity.
Defined.

(** *** What can be read *)

Lemma Z_of_byte_range (b : byte) : 0 <= Z_of_byte b <= 255.
Proof.
  unfold Z_of_byte. pose proof (Byte.to_N_bounded b). lia.
Qed.

Lemma unpack_H_range (b0 b1 : byte) :
  exists v, unpack_H [b0; b1] = Ok v /\ 0 <= v <= 65535.
Proof.
  eexists. split; [reflexivity|].
  pose proof (Z_of_byte_range b0). pose proof (Z_of_byte_range b1). lia.
Qed.

Lemma dict_setitem_In {K V} `{EqKeyOk K} (k : K) (v : V) (d : dict K V) :
  forall k' v', In (k', v') (dict_setitem k v d) ->
                (k' = k /\ v' = v) \/ In (k', v') d.
Proof.
  induction d as [|[k0 v0] d IH]; intros k' v'; simpl.
  - intros [[= <- <-]|[]]. auto.
  - destruct (key_eqb_case k k0) as [[-> E]|[N E]]; rewrite E; simpl.
    + intros [[= <- <-]|I]; auto.
    + intros [Q|I]; [auto|]. apply IH in I. tauto.
Qed.

Lemma dict_setitem_keys {K V} `{EqKeyOk K} (k : K) (v : V) (d : dict K V) :
  dict_keys (dict_setitem k v d)
  = if dict_contains k d then dict_keys d else dict_keys d ++ [k].
Proof.
  unfold dict_contains.
  induction d as [|[k0 v0] d IH]; simpl; [reflexivity|].
  destruct (key_eqb_case k k0) as [[-> E]|[N E]]; rewrite E; simpl.
  - reflexivity.
  - rewrite IH. destruct (dict_get k d); reflexivity.
Qed.

Lemma dict_setitem_NoDup {K V} `{EqKeyOk K} (k : K) (v : V) (d : dict K V) :
  NoDup (dict_keys d) -> NoDup (dict_keys (dict_setitem k v d)).
Proof.
  intros N. rewrite dict_setitem_keys.
  destruct (dict_contains k d) eqn:C; [exact N|].
  apply NoDup_snoc; [exact N|].
  apply dict_get_None_keys. apply dict_contains_false. exact C.
Qed.

Lemma dict_setitem_length {K V} `{EqKeyOk K} (k : K) (v : V) (d : dict K V) :
  (1 <= length (dict_setitem k v d) <= length d + 1)%nat
  /\ (length d <= length (dict_setitem k v d))%nat.
Proof.
  assert (L : length (dict_setitem k v d) = length (dict_keys (dict_setitem k v d)))
    by (unfold dict_keys; rewrite length_map; reflexivity).
  rewrite L, dict_setitem_keys.
  destruct (dict_contains k d) eqn:C.
  - unfold dict_keys. rewrite length_map. destruct d; [discriminate C|].
    simpl. lia.
  - unfold dict_keys. rewrite length_app, length_map. simpl. lia.
Qed.

(** A table as [read_entries] builds it. *)
Lemma read_entries_spec (n : nat) : forall acc file,
  ((3 * n <= length file)%nat ->
   exists table, read_entries n acc file = Ok (table, skipn (3 * n) file)
     /\ (NoDup (dict_keys acc) -> NoDup (dict_keys table))
     /\ (length acc <= length table <= length acc + n)%nat
     /\ (0 < n -> 0 < length table)%nat
     /\ (forall w k, In (w, k) table ->
           In (w, k) acc
           \/ exists c, w = [c] /\ 0 <= c <= 65535 /\ 0 <= k <= 255))
  /\ ((length file < 3 * n)%nat ->
      read_entries n acc file = Raise StructError).
Proof.
  induction n as [|n IH]; intros acc file.
  - split; [|simpl; lia]. intros _. exists acc. simpl.
    split; [reflexivity|]. split; [auto|]. split; [lia|]. split; [lia | auto].
  - destruct file as [|b0 [|b1 [|b2 file]]];
      try (split; [simpl; lia | intros _; reflexivity]).
    { split; [simpl; lia|]. intros _.
      change (read_entries (S n) acc [b0; b1])
        with (cp <- unpack_H [b0; b1] ;;
              char <- chr cp ;;
              code <- unpack_B [] ;;
              read_entries n (dict_setitem char code acc) []).
      destruct (unpack_H_range b0 b1) as (v & Ev & Rv).
      rewrite Ev. cbn [bind]. rewrite (chr_ok v Rv). reflexivity. }
    rewrite read_entries_step.
    destruct (unpack_H_range b0 b1) as (v & Ev & Rv). rewrite Ev. cbn [bind].
    rewrite (chr_ok v Rv). cbn [bind]. unfold unpack_B. cbn [bind].
    pose proof (Z_of_byte_range b2) as Rk.
    destruct (IH (dict_setitem [v] (Z_of_byte b2) acc) file) as [Good Bad].
    pose proof (dict_setitem_length [v] (Z_of_byte b2) acc) as [L1 L2].
    split.
    + intros Len. simpl in Len.
      destruct Good as (table & E & ND & Lt & _ & Ve); [lia|].
      exists table. split.
      { rewrite E. f_equal. f_equal.
        replace (3 * S n)%nat with (3 + 3 * n)%nat by lia. reflexivity. }
      split; [intros N; apply ND; apply dict_setitem_NoDup; exact N|].
      split; [lia|]. split; [lia|].
      intros w k I. destruct (Ve w k I) as [Q|Q]; [|auto].
      apply dict_setitem_In in Q. destruct Q as [[-> ->]|Q]; [right; eauto | auto].
    + intros Len. simpl in Len. apply Bad. lia.
Qed.

Lemma read_codes_spec (n : nat) : forall file acc,
  (length file <= n)%nat ->
  (Nat.even (length file) = true ->
   exists codes, read_codes file acc = Ok (acc ++ codes)
                 /\ (2 * length codes = length file)%nat
                 /\ (forall x, In x codes -> 0 <= x <= 65535))
  /\ (Nat.even (length file) = false ->
      read_codes file acc = Raise StructError).
Proof.
  induction n as [|n IH]; intros file acc Len.
  - destruct file; [|simpl in Len; lia]. split; [|discriminate].
    intros _. exists []. simpl. rewrite app_nil_r.
    split; [reflexivity|]. split; [reflexivity | intros x []].
  - destruct file as [|b0 [|b1 file]].
    + split; [|discriminate]. intros _. exists []. simpl. rewrite app_nil_r.
      split; [reflexivity|]. split; [reflexivity | intros x []].
    + split; [discriminate | reflexivity].
    + rewrite read_codes_step.
      destruct (unpack_H_range b0 b1) as (v & Ev & Rv). rewrite Ev. cbn [bind].
      simpl in Len.
      destruct (IH file (acc ++ [v]) ltac:(lia)) as [Good Bad].
      change (Nat.even (length (b0 :: b1 :: file)))
        with (Nat.even (length file)).
      split.
      * intros Ev2. destruct (Good Ev2) as (codes & E & L & V).
        exists (v :: codes). rewrite E, <- app_assoc. simpl.
        split; [reflexivity|]. split; [lia|].
        intros x [<-|I]; auto.
      * exact Bad.
Qed.

Lemma read_lzw_unfold (b : byte) (rest : list byte) :
  read_lzw (b :: rest) =
  (r <- read_entries (Z.to_nat (Z_of_byte b + 1)) [] rest ;;
   compressed_data <- read_codes (snd r) [] ;;
   Ok (compressed_data, fst r)).
Proof. reflexivity. Qed.

Lemma read_lzw_spec (b : byte) (rest : list byte) :
  let n := Z.to_nat (Z_of_byte b + 1) in
  ((3 * n <= length rest)%nat /\ Nat.even (length rest - 3 * n) = true ->
   exists codes table,
     read_lzw (b :: rest) = Ok (codes, table)
     /\ NoDup (dict_keys table)
     /\ (0 < length table <= n)%nat
     /\ (forall w k, In (w, k) table ->
           exists c, w = [c] /\ 0 <= c <= 65535 /\ 0 <= k <= 255)
     /\ (forall x, In x codes -> 0 <= x <= 65535)
     /\ (3 * n + 2 * length codes = length rest)%nat)
  /\ (~ ((3 * n <= length rest)%nat /\ Nat.even (length rest - 3 * n) = true) ->
      read_lzw (b :: rest) = Raise StructError).
Proof.
  intros n. rewrite read_lzw_unfold. fold n.
  assert (Pn : (0 < n)%nat) by (pose proof (Z_of_byte_range b); unfold n; lia).
  destruct (read_entries_spec n [] rest) as [Good Bad].
  destruct (Nat.le_gt_cases (3 * n) (length rest)) as [Len|Len].
  - destruct (Good Len) as (table & E & ND & Lt & Pos & Ve).
    rewrite E. cbn [bind snd fst].
    assert (Ls : length (skipn (3 * n) rest) = (length rest - 3 * n)%nat)
      by apply length_skipn.
    destruct (read_codes_spec (length (skipn (3 * n) rest))
                (skipn (3 * n) rest) [] (Nat.le_refl _)) as [GoodC BadC].
    rewrite Ls in GoodC, BadC.
    destruct (Nat.even (length rest - 3 * n)) eqn:Ev.
    + destruct (GoodC eq_refl) as (codes & Ec & Lc & Vc).
      split; [|intros C; exfalso; apply C; auto].
      intros _. exists codes, table. rewrite Ec. cbn [bind app].
      split; [reflexivity|]. split; [apply ND; constructor|].
      split; [simpl in Lt; split; [apply Pos; exact Pn | lia]|].
      split; [intros w k I; destruct (Ve w k I) as [[]|Q]; exact Q|].
      split; [exact Vc | lia].
    + split; [intros [_ C]; discriminate C|].
      intros _. rewrite (BadC eq_refl). reflexivity.
  - split; [intros [C _]; lia|]. intros _. rewrite (Bad Len). reflexivity.
Qed.

(** X13.  A file can be read exactly when it has a first byte [b], then
    [b + 1] complete three-byte entries, then an even number of bytes; any
    other file, the empty one included, raises struct.error, and nothing else
    is ever raised. *)
Theorem read_lzw_ok_iff (file : list byte) :
  ((exists r, read_lzw file = Ok r) <->
   exists b rest, file = b :: rest
     /\ (3 * Z.to_nat (Z_of_byte b + 1) <= length rest)%nat
     /\ Nat.even (length rest - 3 * Z.to_nat (Z_of_byte b + 1)) = true)
  /\ (forall e, read_lzw file = Raise e -> e = StructError).
Proof.
  destruct file as [|b rest].
  - split; [|intros e [= <-]; reflexivity].
    split; [intros [r E]; discriminate E | intros (b & rest & E & _); discriminate E].
  - destruct (read_lzw_spec b rest) as [Good Bad]. cbv zeta in Good, Bad.
    destruct (Nat.le_gt_cases (3 * Z.to_nat (Z_of_byte b + 1)) (length rest))
      as [Len|Len];
      [destruct (Nat.even (length rest - 3 * Z.to_nat (Z_of_byte b + 1))) eqn:Ev|].
    + destruct (Good (conj Len eq_refl)) as (codes & table & E & _).
      split; [|intros e Q; rewrite E in Q; discriminate Q].
      split; [intros _; exists b, rest; auto | intros _; eauto].
    + assert (E : read_lzw (b :: rest) = Raise StructError)
        by (apply Bad; intros [_ C]; congruence).
      split; [|intros e Q; rewrite E in Q; inversion Q; reflexivity].
      split; [intros [r Q]; rewrite E in Q; discriminate Q|].
      intros (b' & rest' & [= <- <-] & _ & C). congruence.
    + assert (E : read_lzw (b :: rest) = Raise StructError)
        by (apply Bad; intros [C _]; lia).
      split; [|intros e Q; rewrite E in Q; inversion Q; reflexivity].
      split; [intros [r Q]; rewrite E in Q; discriminate Q|].
      intros (b' & rest' & [= <- <-] & C & _). lia.
Qed.

(** X14.  Whatever the bytes, a table read from a file is a non-empty dict of
    at most 256 entries, each key one character with a two-byte code point,
    each code a one-byte value, and every compressed code read is a two-byte
    value; the file holds one byte, three per entry read and two per code. *)
Theorem read_lzw_wellformed
  (file : list byte) (compressed_data : list Z) (table : dict str Z) :
  read_lzw file = Ok (compressed_data, table) ->
  table <> []
  /\ keys_unique table = true
  /\ (length table <= 256)%nat
  /\ (forall w k, In (w, k) table ->
        exists c, w = [c] /\ 0 <= c <= 65535 /\ 0 <= k <= 255)
  /\ two_byte_values compressed_data = true
  /\ exists b rest, file = b :: rest
       /\ (1 + 3 * Z.to_nat (Z_of_byte b + 1) + 2 * length compressed_data
           = length file)%nat.
Proof.
  intros E. destruct file as [|b rest]; [discriminate E|].
  destruct (read_lzw_spec b rest) as [Good Bad]. cbv zeta in Good, Bad.
  assert (Sh : (3 * Z.to_nat (Z_of_byte b + 1) <= length rest)%nat
               /\ Nat.even (length rest - 3 * Z.to_nat (Z_of_byte b + 1)) = true).
  { destruct (Nat.le_gt_cases (3 * Z.to_nat (Z_of_byte b + 1)) (length rest))
      as [Len|Len].
    - destruct (Nat.even (length rest - 3 * Z.to_nat (Z_of_byte b + 1))) eqn:Ev;
        [auto|].
      rewrite Bad in E; [discriminate E | intros [_ C]; congruence].
    - rewrite Bad in E; [discriminate E | intros [C _]; lia]. }
  destruct (Good Sh) as (codes & table' & E' & ND & Lt & Ve & Vc & Lc).
  rewrite E in E'. inversion E'; subst codes table'; clear E'.
  pose proof (Z_of_byte_range b) as Rb.
  split; [intros ->; simpl in Lt; lia|].
  split; [apply keys_unique_NoDup; exact ND|].
  split; [lia|]. split; [exact Ve|].
  split; [apply two_byte_values_spec; exact Vc|].
  exists b, rest. split; [reflexivity | simpl; lia].
Qed.

Lemma read_lzw_wellformed_witness :
  [([98], 1); ([97], 0)] <> []
  /\ keys_unique [([98], 1); ([97], 0)] = true
  /\ (length [([98], 1); ([97], 0)]%Z <= 256)%nat
  /\ (forall w k, In (w, k) [([98], 1); ([97], 0)] ->
        exists c, w = [c] /\ 0 <= c <= 65535 /\ 0 <= k <= 255)
  /\ two_byte_values [300; 65535] = true
  /\ exists b rest,
       [x01; x62; x00; x01; x61; x00; x00; x2c; x01; xff; xff] = b :: rest
       /\ (1 + 3 * Z.to_nat (Z_of_byte b + 1) + 2 * length [300; 65535]%Z
           = length [x01; x62; x00; x01; x61; x00; x00; x2c; x01; xff; xff])%nat.
Proof.
  apply (read_lzw_wellformed
           [x01; x62; x00; x01; x61; x00; x00; x2c; x01; xff; xff]).
  reflexivity.
Defined.

(** X15.  A file that holds a table and no code cannot be uncompressed:
    [uncompress_from_file] raises IndexError, from [pop(0)] on the empty
    list (line 181). *)
Theorem uncompress_from_file_no_codes
  (write_text : text_writer) (file : list byte) (table : dict str Z) :
  read_lzw file = Ok ([], table) ->
  uncompress_from_file write_text file = Raise IndexError.
Proof.
  intros E. unfold uncompress_from_file. rewrite E. cbn [bind fst snd].
  destruct file as [|b rest]; [discriminate E|].
  destruct (read_lzw_spec b rest) as [Good Bad]. cbv zeta in Good, Bad.
  assert (Sh : (3 * Z.to_nat (Z_of_byte b + 1) <= length rest)%nat
               /\ Nat.even (length rest - 3 * Z.to_nat (Z_of_byte b + 1)) = true).
  { destruct (Nat.le_gt_cases (3 * Z.to_nat (Z_of_byte b + 1)) (length rest))
      as [Len|Len].
    - destruct (Nat.even (length rest - 3 * Z.to_nat (Z_of_byte b + 1))) eqn:Ev;
        [auto|].
      rewrite Bad in E; [discriminate E | intros [_ C]; congruence].
    - rewrite Bad in E; [discriminate E | intros [C _]; lia]. }
  destruct (Good Sh) as (codes & table' & E' & ND & Lt & _).
  rewrite E in E'. inversion E'; subst codes table'; clear E'.
  assert (NE : table <> []) by (intros ->; simpl in Lt; lia).
  destruct (max_code_spec table NE (proj2 (keys_unique_NoDup table) ND))
    as (m & Em & _).
  rewrite uncompress_unfold. fold (objects [] table). rewrite run_unfold, Em.
  reflexivity.
Qed.

Lemma uncompress_from_file_no_codes_witness :
  uncompress_from_file write_text_utf8 [x00; x61; x00; x00] = Raise IndexError.
Proof.
  apply (uncompress_from_file_no_codes write_text_utf8
           [x00; x61; x00; x00] [([97], 0)]).
  reflexivity.
Defined.

(** ** File names *)

Lemma remove_lzw_cons (c : Z) (s : str) :
  remove_lzw (c :: s)
  = if starts_with_lzw (c :: s) then remove_lzw (skipn 3 s)
    else c :: remove_lzw s.
Proof.
  destruct s as [|c1 [|c2 [|c3 rest]]]; reflexivity.
Qed.

Lemma starts_with_lzw_spec (s : str) :
  starts_with_lzw s = true <-> exists b, s = lzw_ext ++ b.
Proof.
  unfold lzw_ext. destruct s as [|c0 [|c1 [|c2 [|c3 rest]]]]; simpl;
    try (split; [discriminate | intros [b E]; discriminate E]).
  rewrite !andb_true_iff, !Z.eqb_eq. split.
  - intros [[[-> ->] ->] ->]. exists rest. reflexivity.
  - intros [b E]. inversion E. auto.
Qed.

Lemma occurs_lzw_spec (s : str) :
  occurs_lzw s = true <-> exists a b, s = a ++ lzw_ext ++ b.
Proof.
  split.
  - induction s as [|c s IH]; [discriminate|].
    cbn [occurs_lzw]. rewrite orb_true_iff. intros [H|H].
    + apply starts_with_lzw_spec in H. destruct H as [b E].
      exists [], b. exact E.
    + destruct (IH H) as (a & b & E). exists (c :: a), b. rewrite E. reflexivity.
  - intros (a & b & E). subst s. induction a as [|c a IH].
    + reflexivity.
    + simpl app. cbn [occurs_lzw]. rewrite orb_true_iff. right. exact IH.
Qed.

(** No occurrence of ".lzw" starts inside a string that has none and ends in
    a ".lzw" appended to it. *)
Lemma starts_with_lzw_app (c : Z) (f g : str) :
  starts_with_lzw (c :: f) = false ->
  starts_with_lzw ((c :: f) ++ lzw_ext ++ g) = false.
Proof.
  unfold lzw_ext. destruct f as [|c1 [|c2 [|c3 f]]]; simpl; intros H.
  - rewrite !andb_false_r. reflexivity.
  - rewrite andb_false_r. reflexivity.
  - apply andb_false_r.
  - exact H.
Qed.

Lemma remove_lzw_app (f g : str) :
  occurs_lzw f = false ->
  remove_lzw (f ++ lzw_ext ++ g) = f ++ remove_lzw g.
Proof.
  induction f as [|c f IH]; intros H.
  - reflexivity.
  - cbn [occurs_lzw] in H. apply orb_false_iff in H. destruct H as [H1 H2].
    change ((c :: f) ++ lzw_ext ++ g) with (c :: (f ++ lzw_ext ++ g)).
    rewrite remove_lzw_cons.
    change (c :: (f ++ lzw_ext ++ g)) with ((c :: f) ++ lzw_ext ++ g).
    rewrite (starts_with_lzw_app c f g H1). rewrite (IH H2). reflexivity.
Qed.

Lemma remove_lzw_none (f : str) : occurs_lzw f = false -> remove_lzw f = f.
Proof.
  induction f as [|c f IH]; intros H; [reflexivity|].
  cbn [occurs_lzw] in H. apply orb_false_iff in H. destruct H as [H1 H2].
  rewrite remove_lzw_cons, H1, (IH H2). reflexivity.
Qed.

(** X16.  For a file name in which ".lzw" does not occur: the name
    [uncompress_from_file] writes to, computed from the name
    [compress_to_file] wrote to, is the original name; and applied to the
    name itself [uncompress_from_file] writes to that same name, over its
    input.  In a longer name the first ".lzw" is dropped wherever it stands,
    not only at the end. *)
Theorem out_file_names (f : str) :
  occurs_lzw f = false ->
  uncompress_out_file (compress_out_file f) = f
  /\ uncompress_out_file f = f
  /\ forall g, uncompress_out_file (f ++ lzw_ext ++ g)
               = f ++ uncompress_out_file g.
Proof.
  intros H. unfold uncompress_out_file, compress_out_file.
  split; [|split].
  - rewrite <- (app_nil_r lzw_ext). rewrite (remove_lzw_app f [] H).
    apply app_nil_r.
  - apply remove_lzw_none; exact H.
  - intros g. apply remove_lzw_app; exact H.
Qed.

Lemma out_file_names_witness :
  uncompress_out_file (compress_out_file [97; 46; 116; 120; 116])
  = [97; 46; 116; 120; 116]
  /\ uncompress_out_file [97; 46; 116; 120; 116] = [97; 46; 116; 120; 116]
  /\ forall g, uncompress_out_file ([97; 46; 116; 120; 116] ++ lzw_ext ++ g)
               = [97; 46; 116; 120; 116] ++ uncompress_out_file g.
Proof.
  apply (out_file_names [97; 46; 116; 120; 116]).
  reflexivity.
Defined.

Example out_file_name_inner_lzw :
  uncompress_out_file
    ([97] ++ lzw_ext ++ [46; 116; 120; 116] ++ lzw_ext)
  = [97; 46; 116; 120; 116].
Proof. reflexivity. Qed.

(** ** The two working tables *)

(** X17.  The decoder rebuilds the encoder's table: on a non-empty input,
    when [uncompress] has decoded what [compress] returned, every string the
    encoder's working table maps to a code is what the decoder's working
    table maps that code to. *)
Theorem decoder_rebuilds_encoder_table (u : list Z) (s : str) :
  s <> [] -> list_of_set u s = true ->
  exists el dl h,
    Compress.run u s = Ok el
    /\ Uncompress.run
         (objects (Compress.compressed_data el) (Compress.initial_table el))
       = (Ok dl, h)
    /\ forall w k, dict_get w (Compress.table el) = Some k ->
                   dict_get k (Uncompress.table dl) = Some w.
Proof.
  intros NE L.
  destruct (run_then_run u s NE L) as (el & dl & E & It & D & _ & Sym).
  exists el, dl. eexists. split; [exact E|]. rewrite It. split; [exact D|exact Sym].
Qed.

Lemma decoder_rebuilds_encoder_table_witness :
  exists el dl h,
    Compress.run [84;79;66;69;82;78] TOBE = Ok el
    /\ Uncompress.run
         (objects (Compress.compressed_data el) (Compress.initial_table el))
       = (Ok dl, h)
    /\ forall w k, dict_get w (Compress.table el) = Some k ->
                   dict_get k (Uncompress.table dl) = Some w.
Proof.
  apply (decoder_rebuilds_encoder_table [84;79;66;69;82;78] TOBE).
  - discriminate.
  - reflexivity.
Defined.

(** ** A code shared by several keys *)

(** X18.  When several keys of the table given to [uncompress] carry the
    same code, the inverted table of line 168 keeps the last of them: a
    sequence holding that one code decodes to the last key that carries it. *)
Theorem uncompress_shared_code
  (d1 d2 : dict str Z) (w : str) (v : Z) :
  keys_unique (d1 ++ (w, v) :: d2) = true ->
  mem_Z v (dict_values d2) = false ->
  fst (uncompress [v] (d1 ++ (w, v) :: d2)) = Ok w.
Proof.
  intros U NI.
  assert (NV : ~ In v (dict_values d2)).
  { intros I. apply mem_Z_In in I. congruence. }
  assert (NE : d1 ++ (w, v) :: d2 <> []) by (destruct d1; discriminate).
  destruct (max_code_spec _ NE U) as (m & Em & _).
  assert (G : dict_get v (dict_invert (d1 ++ (w, v) :: d2)) = Some w).
  { unfold dict_invert. rewrite fold_left_app. simpl fold_left.
    rewrite invert_fold_skip by exact NV. apply dict_get_setitem_same. }
  rewrite uncompress_unfold, run_unfold, Em.
  unfold dict_getitem. rewrite G. reflexivity.
Qed.

Lemma uncompress_shared_code_witness :
  fst (uncompress [0] ([([97], 0)] ++ ([98], 0) :: [([99], 1)])) = Ok [98].
Proof.
  apply (uncompress_shared_code [([97], 0)] [([99], 1)] [98] 0).
  - reflexivity.
  - reflexivity.
Defined.
